(** * libqthttpserver: the responder, the chunked transfer and the
      connection read loop, embedded in Rocq.

    Sources embedded here:
    - [qhttpserverresponder.cpp]: [IOChunkedTransfer] and the
      [QHttpServerResponder] write operations;
    - [qabstracthttpserver.cpp]: [QAbstractHttpServer::handleReadyRead].

    Conventions.  A [qint64] is a [Z]; every index of this development stays
    far below [2^63], so the C++ arithmetic does not overflow.  A [QByteArray]
    and a [char] buffer are lists of [byte].  A C++ function that can abort
    (a failing [Q_ASSERT], [std::map::at] on a missing key, an access outside
    an allocation) returns a [result]. *)

From Stdlib Require Import String Ascii DecimalString.
From Stdlib.Strings Require Import Byte.
From stdpp Require Import base option list gmap.
From Stdlib Require Import ZArith Lia Bool List.
Import ListNotations.
Local Open Scope Z_scope.

(** ** Outcomes of a call *)

Inductive fault : Type :=
| AssertionFailed      (* Q_ASSERT(cond) with cond false, assertions enabled *)
| OutOfRange           (* std::out_of_range thrown by std::map::at *)
| InvalidAccess.       (* access outside an allocation, or through end() *)

Inductive result (A : Type) : Type :=
| Ok (a : A)
| Crash (f : fault).
Arguments Ok {A} a.
Arguments Crash {A} f.

Definition bind {A B : Type} (r : result A) (k : A -> result B) : result B :=
  match r with
  | Ok a => k a
  | Crash f => Crash f
  end.

Notation "'do' x <- r ; k" := (bind r (fun x => k))
  (at level 10, x name, r at level 100, k at level 200).
Notation "'check' r ; k" := (bind r (fun _ => k))
  (at level 10, r at level 100, k at level 200).

(** [Q_ASSERT]: checked when the library is built with assertions
    ([QT_DEBUG] is true), compiled out otherwise. *)
Definition Q_ASSERT (QT_DEBUG : bool) (cond : bool) : result unit :=
  if QT_DEBUG && negb cond then Crash AssertionFailed else Ok tt.

(** ** Byte arrays *)

Definition QByteArray : Type := list byte.

Definition QByteArrayLiteral (s : string) : QByteArray := list_byte_of_string s.

(** [QByteArray::number(n)]: the decimal digits of [n]. *)
Definition number (n : Z) : QByteArray :=
  QByteArrayLiteral (NilZero.string_of_int (Z.to_int n)).

Definition CRLF : QByteArray := [x0d; x0a].

Arguments QByteArrayLiteral : simpl never.
Arguments number : simpl never.

(** Messages of [qDebug] and [qWarning], recorded by their format string. *)
Inductive diagnostic : Type :=
| qDebug (msg : string)
| qWarning (msg : string).

(** ** QIODevice

    The part of the [QIODevice] interface that the sources call.  [read]
    returns [None] for the error result [-1] and otherwise the bytes it
    stored at the start of the caller's buffer, whose number is the C++
    return value; [write] is handed the [maxSize] bytes at the caller's
    pointer and returns the C++ return value. *)

Definition NotOpen : Z := 0.
Definition ReadOnly : Z := 1.
Definition WriteOnly : Z := 2.

Class QIODeviceIn (D : Type) : Type := {
  isOpen : D -> bool;
  openMode : D -> Z;
  open : Z -> D -> bool * D;
  isSequential : D -> bool;
  size : D -> Z;
  atEnd : D -> bool;
  bytesAvailable : D -> Z;
  read : Z -> D -> option (list byte) * D;
}.

Class QIODeviceOut (D : Type) : Type := {
  write : list byte -> D -> Z * D;
}.

(** The documented contract of [QIODevice::read]: at most [maxSize] bytes. *)
Class ReadContract (D : Type) `{QIODeviceIn D} : Prop :=
  read_at_most : forall (maxSize : Z) (d d' : D) (bs : list byte),
    0 <= maxSize -> read maxSize d = (Some bs, d') ->
    Z.of_nat (length bs) <= maxSize.

(** A sink that takes each write whole, or nothing of it (an error or zero
    bytes), as a socket that buffers whatever it is handed does. *)
Class WholeWrites (D : Type) `{QIODeviceOut D} : Prop :=
  write_whole : forall (bs : list byte) (d d' : D) (k : Z),
    write bs d = (k, d') -> k <= 0 \/ k = Z.of_nat (length bs).

(** ** IOChunkedTransfer ([qhttpserverresponder.cpp], lines 54-134) *)

Module Chunked.

(** One call [sink->write(buffer + offset, maxSize)] as the transfer issued
    it, with the bytes of that range and the value the sink returned. *)
Record SinkWrite : Type := mkSinkWrite {
  sw_offset : Z;
  sw_maxSize : Z;
  sw_data : list byte;
  sw_written : Z;
}.

(** The bytes the sink took from a call. *)
Definition accepted (c : SinkWrite) : list byte :=
  if sw_written c <? 0 then [] else firstn (Z.to_nat (sw_written c)) (sw_data c).

Definition delivered (cs : list SinkWrite) : list byte :=
  concat (map accepted cs).

Definition writeLengths (cs : list SinkWrite) : Z :=
  fold_right (fun c acc => Z.max 0 (sw_written c) + acc) 0 cs.

Section IOChunkedTransfer.

Context {Src Snk : Type} `{QIODeviceIn Src} `{QIODeviceOut Snk}.

(** Whether assertions are compiled in, and the template argument. *)
Variable QT_DEBUG : bool.
Variable BUFFERSIZE : Z.

(** The members of the struct, then what the event loop holds for it: the
    zero timers not fired yet, the deferred deletion of the source, whether
    the source's [destroyed] signal has run [delete this]; and the history
    of the calls made on the sink and of the warnings. *)
Record IOChunkedTransfer : Type := mkTransfer {
  buffer : list byte;
  beginIndex : Z;
  endIndex : Z;
  source : Src;
  sink : Snk;
  writeReady : bool;
  readTimers : nat;
  sourceDeleteLater : bool;
  destroyed : bool;
  issued : list SinkWrite;
  warnings : list diagnostic;
}.

Definition set_buffer (b : list byte) (t : IOChunkedTransfer) : IOChunkedTransfer :=
  mkTransfer b (beginIndex t) (endIndex t) (source t) (sink t) (writeReady t)
    (readTimers t) (sourceDeleteLater t) (destroyed t) (issued t) (warnings t).

Definition set_beginIndex (i : Z) (t : IOChunkedTransfer) : IOChunkedTransfer :=
  mkTransfer (buffer t) i (endIndex t) (source t) (sink t) (writeReady t)
    (readTimers t) (sourceDeleteLater t) (destroyed t) (issued t) (warnings t).

Definition set_endIndex (i : Z) (t : IOChunkedTransfer) : IOChunkedTransfer :=
  mkTransfer (buffer t) (beginIndex t) i (source t) (sink t) (writeReady t)
    (readTimers t) (sourceDeleteLater t) (destroyed t) (issued t) (warnings t).

Definition set_source (s : Src) (t : IOChunkedTransfer) : IOChunkedTransfer :=
  mkTransfer (buffer t) (beginIndex t) (endIndex t) s (sink t) (writeReady t)
    (readTimers t) (sourceDeleteLater t) (destroyed t) (issued t) (warnings t).

Definition set_sink (s : Snk) (t : IOChunkedTransfer) : IOChunkedTransfer :=
  mkTransfer (buffer t) (beginIndex t) (endIndex t) (source t) s (writeReady t)
    (readTimers t) (sourceDeleteLater t) (destroyed t) (issued t) (warnings t).

Definition set_writeReady (b : bool) (t : IOChunkedTransfer) : IOChunkedTransfer :=
  mkTransfer (buffer t) (beginIndex t) (endIndex t) (source t) (sink t) b
    (readTimers t) (sourceDeleteLater t) (destroyed t) (issued t) (warnings t).

Definition set_readTimers (n : nat) (t : IOChunkedTransfer) : IOChunkedTransfer :=
  mkTransfer (buffer t) (beginIndex t) (endIndex t) (source t) (sink t) (writeReady t)
    n (sourceDeleteLater t) (destroyed t) (issued t) (warnings t).

Definition set_sourceDeleteLater (b : bool) (t : IOChunkedTransfer) : IOChunkedTransfer :=
  mkTransfer (buffer t) (beginIndex t) (endIndex t) (source t) (sink t) (writeReady t)
    (readTimers t) b (destroyed t) (issued t) (warnings t).

Definition set_destroyed (b : bool) (t : IOChunkedTransfer) : IOChunkedTransfer :=
  mkTransfer (buffer t) (beginIndex t) (endIndex t) (source t) (sink t) (writeReady t)
    (readTimers t) (sourceDeleteLater t) b (issued t) (warnings t).

Definition record_write (c : SinkWrite) (t : IOChunkedTransfer) : IOChunkedTransfer :=
  mkTransfer (buffer t) (beginIndex t) (endIndex t) (source t) (sink t) (writeReady t)
    (readTimers t) (sourceDeleteLater t) (destroyed t) (issued t ++ [c]) (warnings t).

Definition warn (msg : string) (t : IOChunkedTransfer) : IOChunkedTransfer :=
  mkTransfer (buffer t) (beginIndex t) (endIndex t) (source t) (sink t) (writeReady t)
    (readTimers t) (sourceDeleteLater t) (destroyed t) (issued t)
    (warnings t ++ [qWarning msg]).

(** The [len] bytes at [buf + off]; the range must lie inside the
    allocation. *)
Definition bytesAt (buf : list byte) (off len : Z) : result (list byte) :=
  if (0 <=? off) && (0 <=? len) && (off + len <=? Z.of_nat (length buf))
  then Ok (firstn (Z.to_nat len) (skipn (Z.to_nat off) buf))
  else Crash InvalidAccess.

(** [source->read(buffer, bufferSize)] stores its bytes at the start. *)
Definition storeAtStart (bs buf : list byte) : list byte :=
  bs ++ skipn (length bs) buf.

(** [memset(buffer + n, 0, bufferSize - n)]. *)
Definition zeroFrom (n : Z) (buf : list byte) : list byte :=
  firstn (Z.to_nat n) buf ++ repeat x00 (Z.to_nat (BUFFERSIZE - n)).

Definition isBufferEmpty (t : IOChunkedTransfer) : result bool :=
  check Q_ASSERT QT_DEBUG (beginIndex t <=? endIndex t);
  Ok (beginIndex t =? endIndex t).

Definition writeToOutput (t : IOChunkedTransfer) : result IOChunkedTransfer :=
  do empty <- isBufferEmpty t;
  if empty || negb (writeReady t) then Ok t else
  do data <- bytesAt (buffer t) (beginIndex t) (endIndex t);
  let '(writtenBytes, sink') := write data (sink t) in
  let t := record_write (mkSinkWrite (beginIndex t) (endIndex t) data writtenBytes)
             (set_sink sink' t) in
  let t := set_writeReady false t in
  if writtenBytes <? 0 then Ok (warn "Error writing chunk: %s" t) else
  let t := set_beginIndex (beginIndex t + writtenBytes) t in
  do empty <- isBufferEmpty t;
  if empty then
    if negb (bytesAvailable (source t) =? 0)
    then Ok (set_readTimers (S (readTimers t)) t)
    else if atEnd (source t)
         then Ok (set_sourceDeleteLater true t)
         else Ok t
  else Ok t.

Definition readFromInput (t : IOChunkedTransfer) : result IOChunkedTransfer :=
  do empty <- isBufferEmpty t;
  if negb empty then Ok t else
  let t := set_beginIndex 0 t in
  let '(chunk, source') := read BUFFERSIZE (source t) in
  let t := set_source source' t in
  match chunk with
  | None =>
      let t := set_endIndex (-1) t in
      let t := set_endIndex (beginIndex t) t in
      Ok (warn "Error reading chunk: %s" t)
  | Some bs =>
      let t := set_endIndex (Z.of_nat (length bs))
                 (set_buffer (storeAtStart bs (buffer t)) t) in
      if negb (endIndex t =? 0)
      then writeToOutput (set_buffer (zeroFrom (endIndex t) (buffer t)) t)
      else Ok t
  end.

(** The members as their initialisers leave them, before the constructor's
    body runs; [malloc]'s bytes are indeterminate and are taken as [raw]. *)
Definition members (raw : list byte) (input : Src) (output : Snk) : IOChunkedTransfer :=
  mkTransfer raw (-1) (-1) input output true 0 false false [] [].

(** The constructor: [raw] is the block [malloc(bufferSize)] returns. *)
Definition construct (raw : list byte) (input : Src) (output : Snk)
  : result IOChunkedTransfer :=
  check Q_ASSERT QT_DEBUG (negb (atEnd input));
  readFromInput (members raw input output).

(** What the event loop delivers to a transfer: the sink's [bytesWritten]
    signal, a zero timer set by [writeToOutput], and the deferred deletion
    of the source, whose [destroyed] signal deletes the transfer.  The
    destruction of the sink while a transfer runs is not part of this
    model. *)
Inductive event : Type :=
| BytesWritten
| ReadTimer
| DeferredDelete.

#[global] Instance event_eq_dec : EqDecision event.
Proof. solve_decision. Defined.

Definition fire (e : event) (t : IOChunkedTransfer) : result IOChunkedTransfer :=
  if destroyed t then Ok t else
  match e with
  | BytesWritten => writeToOutput (set_writeReady true t)
  | ReadTimer =>
      match readTimers t with
      | O => Ok t
      | S n => readFromInput (set_readTimers n t)
      end
  | DeferredDelete =>
      if sourceDeleteLater t then Ok (set_destroyed true t) else Ok t
  end.

Fixpoint run (es : list event) (t : IOChunkedTransfer) : result IOChunkedTransfer :=
  match es with
  | [] => Ok t
  | e :: es' => do t' <- fire e t; run es' t'
  end.

End IOChunkedTransfer.
End Chunked.

(** ** QHttpServerResponder ([qhttpserverresponder.cpp], lines 44-51 and
       141-306) *)

Module Responder.

(** The socket of a connection as the responder uses it: whether it is open
    and the bytes queued on it.  [QIODevice::write] refuses a device that is
    not open with [-1] and queues nothing; an open [QTcpSocket] buffers
    every byte it is handed. *)
Record QTcpSocket : Type := mkSocket {
  sock_open : bool;
  sock_queue : list byte;
}.

Definition socket_write (bs : list byte) (s : QTcpSocket) : Z * QTcpSocket :=
  if sock_open s
  then (Z.of_nat (length bs), mkSocket true (sock_queue s ++ bs))
  else (-1, s).

#[global] Instance QTcpSocket_out : QIODeviceOut QTcpSocket :=
  {| write := socket_write |}.

Definition StatusCode : Type := Z.
Definition InternalServerError : StatusCode := 500.

(** The conversion [quint32(status)]. *)
Definition quint32 (z : Z) : Z := z mod 2 ^ 32.

Definition contentTypeString : QByteArray := QByteArrayLiteral "Content-Type".
Definition contentLengthString : QByteArray := QByteArrayLiteral "Content-Length".

(** [IOChunkedTransfer<>]: the default template argument. *)
Definition DEFAULT_BUFFERSIZE : Z := 1 * 1024 * 1024.

(** The private part of a responder: its socket and its pending headers;
    [messages] is the log that [qDebug] and [qWarning] write to. *)
Record QHttpServerResponderPrivate : Type := mkResponder {
  socket : QTcpSocket;
  headers : list (QByteArray * QByteArray);
  messages : list diagnostic;
}.

(** Modelled from the spec: the constructor of [QHttpServerResponderPrivate]
    is declared in qhttpserverresponder_p.h, which is not among the sources.
    A responder starts with no pending header. *)
Definition newResponder (s : QTcpSocket) : QHttpServerResponderPrivate :=
  mkResponder s [] [].

(** Modelled from the spec: [QHttpServerResponderPrivate::addHeader] and
    [headers()] are declared in qhttpserverresponder_p.h, which is not among
    the sources.  Each call appends a distinct header entry, and the entries
    are kept in insertion order. *)
Definition addHeader (key value : QByteArray) (d : QHttpServerResponderPrivate)
  : QHttpServerResponderPrivate :=
  mkResponder (socket d) (headers d ++ [(key, value)]) (messages d).

(** Modelled from the spec: the variadic [QHttpServerResponder::addHeaders]
    of qhttpserverresponder.h, not among the sources, adds its pairs in
    argument order. *)
Definition addHeaders (k1 v1 k2 v2 : QByteArray) (d : QHttpServerResponderPrivate)
  : QHttpServerResponderPrivate :=
  addHeader k2 v2 (addHeader k1 v1 d).

Definition say (m : diagnostic) (d : QHttpServerResponderPrivate)
  : QHttpServerResponderPrivate :=
  mkResponder (socket d) (headers d) (messages d ++ [m]).

(** [socket->write(bs)]; the sources ignore the return value. *)
Definition put (bs : list byte) (d : QHttpServerResponderPrivate)
  : QHttpServerResponderPrivate :=
  mkResponder (snd (socket_write bs (socket d))) (headers d) (messages d).

Section Write.

Variable QT_DEBUG : bool.

(** [statusString]: the [std::map] filled from http_parser.h's
    [HTTP_STATUS_MAP], a header that is not among the sources. *)
Variable statusString : gmap Z QByteArray.

(** [statusString.at(status)] throws on a missing key. *)
Definition statusString_at (status : StatusCode) : result QByteArray :=
  match statusString !! status with
  | Some reason => Ok reason
  | None => Crash OutOfRange
  end.

(** The default argument of [writeStatusLine], declared in the header. *)
Definition defaultVersion : Z * Z := (1, 1).

Definition writeStatusLine (status : StatusCode) (version : Z * Z)
  (d : QHttpServerResponderPrivate) : result QHttpServerResponderPrivate :=
  check Q_ASSERT QT_DEBUG (sock_open (socket d));
  let d := put (QByteArrayLiteral "HTTP/") d in
  let d := put (number (fst version)) d in
  let d := put (QByteArrayLiteral ".") d in
  let d := put (number (snd version)) d in
  let d := put (QByteArrayLiteral " ") d in
  let d := put (number (quint32 status)) d in
  let d := put (QByteArrayLiteral " ") d in
  do reason <- statusString_at status;
  let d := put reason d in
  Ok (put CRLF d).

Definition writeHeader (header value : QByteArray) (d : QHttpServerResponderPrivate)
  : QHttpServerResponderPrivate :=
  let d := put header d in
  let d := put (QByteArrayLiteral ": ") d in
  let d := put value d in
  put CRLF d.

Definition writeHeaders (d : QHttpServerResponderPrivate) : QHttpServerResponderPrivate :=
  fold_left (fun d pair => writeHeader (fst pair) (snd pair) d) (headers d) d.

Definition writeBody (body : QByteArray) (d : QHttpServerResponderPrivate)
  : result QHttpServerResponderPrivate :=
  check Q_ASSERT QT_DEBUG (sock_open (socket d));
  let d := put CRLF d in
  Ok (put body d).

(** [write(const QByteArray &data, const QByteArray &mimeType, StatusCode)]. *)
Definition write_bytes (data mimeType : QByteArray) (status : StatusCode)
  (d : QHttpServerResponderPrivate) : result QHttpServerResponderPrivate :=
  do d <- writeStatusLine status defaultVersion d;
  let d := addHeaders contentTypeString mimeType
             contentLengthString (number (Z.of_nat (length data))) d in
  let d := writeHeaders d in
  writeBody data d.

(** [write(StatusCode status)]. *)
Definition write_status (status : StatusCode) (d : QHttpServerResponderPrivate)
  : result QHttpServerResponderPrivate :=
  write_bytes [] (QByteArrayLiteral "application/x-empty") status d.

Section Streaming.

Context {D : Type} `{QIODeviceIn D}.

(** The part of the streaming [write] that follows the checks on [input]. *)
Definition stream (raw : list byte) (input : D) (mimeType : QByteArray)
  (status : StatusCode) (d : QHttpServerResponderPrivate)
  : result (QHttpServerResponderPrivate
            * option (Chunked.IOChunkedTransfer (Src:=D) (Snk:=QTcpSocket))) :=
  if negb (sock_open (socket d))
  then Ok (say (qWarning "Cannot write to socket. It's disconnected") d, None)
  else
  do d <- writeStatusLine status defaultVersion d;
  let d := if negb (isSequential input)
           then addHeader contentLengthString (number (size input)) d
           else d in
  let d := addHeader contentTypeString mimeType d in
  let d := writeHeaders d in
  let d := put CRLF d in
  if atEnd input
  then Ok (say (qDebug "No more data available.") d, None)
  else
    do t <- Chunked.construct QT_DEBUG DEFAULT_BUFFERSIZE raw input (socket d);
    Ok (mkResponder (Chunked.sink t) (headers d) (messages d), Some t).

(** [write(QIODevice *data, const QByteArray &mimeType, StatusCode)];
    [raw] is the block the transfer's [malloc] returns.  The transfer
    writes to the responder's socket: the socket of the result is the
    transfer's sink. *)
Definition write_device (raw : list byte) (input : D) (mimeType : QByteArray)
  (status : StatusCode) (d : QHttpServerResponderPrivate)
  : result (QHttpServerResponderPrivate
            * option (Chunked.IOChunkedTransfer (Src:=D) (Snk:=QTcpSocket))) :=
  if negb (isOpen input) then
    let '(opened, input) := open ReadOnly input in
    if negb opened then
      let d := say (qDebug "500: Could not open device %s") d in
      do d <- write_status InternalServerError d;
      Ok (d, None)
    else stream raw input mimeType status d
  else if Z.land (openMode input) ReadOnly =? 0 then
    let d := say (qDebug "500: Device is opened in a wrong mode") d in
    do d <- write_status InternalServerError d;
    Ok (d, None)
  else stream raw input mimeType status d.

End Streaming.
End Write.
End Responder.

(** ** QAbstractHttpServer::handleReadyRead ([qabstracthttpserver.cpp],
       lines 69-121) *)

Module Server.

(** Modelled from the spec: the parse-state tag of a request is declared in
    qhttpserverrequest_p.h, which is not among the sources.  It is one of
    [Idle], [OnMessageBegin], [OnHeaders], [OnBody], [OnMessageComplete]. *)
Inductive State : Type :=
| Idle
| OnMessageBegin
| OnHeaders
| OnBody
| OnMessageComplete.

#[global] Instance State_eq_dec : EqDecision State.
Proof. solve_decision. Defined.

(** Modelled from the spec: [QHttpServerRequestPrivate], declared in
    qhttpserverrequest_p.h.  [upgrade] is [httpParser.upgrade]; [headers]
    maps the hash of a header's key to the key and its value. *)
Record QHttpServerRequestPrivate : Type := mkRequest {
  state : State;
  upgrade : bool;
  url : QByteArray;
  headers : gmap N (QByteArray * QByteArray);
  body : QByteArray;
}.

(** Modelled from the spec: [QHttpServerRequestPrivate::clear] is defined in
    qhttpserverrequest.cpp, which is not among the sources.  It resets the
    parse state to [Idle] and drops what the last message accumulated; the
    parser's own state is not touched. *)
Definition clear (r : QHttpServerRequestPrivate) : QHttpServerRequestPrivate :=
  mkRequest Idle (upgrade r) [] ∅ [].

(** The read side of the connection's socket: the bytes not read yet and,
    while a transaction is open, the bytes read since it started. *)
Record QTcpSocket : Type := mkSocket {
  transactionStarted : bool;
  unread : list byte;
  consumed : list byte;
}.

Definition startTransaction (s : QTcpSocket) : QTcpSocket :=
  mkSocket true (unread s) [].

Definition readAll (s : QTcpSocket) : list byte * QTcpSocket :=
  (unread s,
   mkSocket (transactionStarted s) []
     (if transactionStarted s then consumed s ++ unread s else [])).

Definition rollbackTransaction (s : QTcpSocket) : QTcpSocket :=
  mkSocket false (consumed s ++ unread s) [].

Definition commitTransaction (s : QTcpSocket) : QTcpSocket :=
  mkSocket false (unread s) [].

(** What a call of [handleReadyRead] does to the outside, in order.
    [Parsed st] records the parse state the request had when its bytes were
    handed to the parser. *)
Inductive action : Type :=
| Cleared
| Parsed (st : State)
| DisconnectSignals            (* socket->disconnect() *)
| DisconnectReadyRead          (* QObject::disconnect(socket, readyRead, ..) *)
| HandedToWebSocketServer      (* websocketServer.handleConnection(socket) *)
| EmitReadyRead
| Warned (msg : string) (arg : QByteArray)
| DisconnectFromHost
| Handled (claimed : bool)     (* the virtual handleRequest *)
| MissingHandler.

(** ASCII lower case, for [compare(.., Qt::CaseInsensitive)]. *)
Definition lower (b : byte) : N :=
  let n := Byte.to_N b in
  if ((65 <=? n) && (n <=? 90))%N then (n + 32)%N else n.

Definition equalsIgnoreCase (a b : QByteArray) : bool :=
  bool_decide (map lower a = map lower b).

Section HandleReadyRead.

(** Whether the library is built with [QT_WEBSOCKETS_LIB], and whether a slot
    is connected to [newWebSocketConnection]. *)
Variable QT_WEBSOCKETS_LIB : bool.
Variable webSocketSignalConnected : bool.

(** The parser fed with a fragment ([http_parser_execute] with the request's
    callbacks): [false] reports a protocol error.  [headerHash] and the
    virtual [handleRequest] are defined outside the sources as well. *)
Variable feed : list byte -> QHttpServerRequestPrivate -> bool * QHttpServerRequestPrivate.
Variable headerHash : QByteArray -> N.
Variable handleRequest : QHttpServerRequestPrivate -> bool.

(** Modelled from the spec: [QHttpServerRequestPrivate::parse] is defined in
    qhttpserverrequest.cpp, which is not among the sources.  It feeds all
    newly available bytes to the parser. *)
Definition parse (s : QTcpSocket) (r : QHttpServerRequestPrivate)
  : bool * QTcpSocket * QHttpServerRequestPrivate :=
  let '(fragment, s) := readAll s in
  let '(ok, r) := feed fragment r in
  (ok, s, r).

Definition handleReadyRead (socket : QTcpSocket) (request : QHttpServerRequestPrivate)
  : result (QTcpSocket * QHttpServerRequestPrivate * list action) :=
  let socket := if negb (transactionStarted socket)
                then startTransaction socket else socket in
  let '(request, log) :=
    if bool_decide (state request = OnMessageComplete)
    then (clear request, [Cleared]) else (request, []) in
  let log := log ++ [Parsed (state request)] in
  let '(ok, socket, request) := parse socket request in
  if negb ok then Ok (socket, request, log ++ [DisconnectSignals]) else
  if negb (upgrade request) && negb (bool_decide (state request = OnMessageComplete))
  then Ok (socket, request, log)
  else
  if upgrade request then
    match headers request !! headerHash (QByteArrayLiteral "upgrade") with
    | Some (_, value) =>
        if QT_WEBSOCKETS_LIB && equalsIgnoreCase value (QByteArrayLiteral "websocket")
        then
          if webSocketSignalConnected
          then Ok (rollbackTransaction socket, request,
                   log ++ [DisconnectReadyRead; HandedToWebSocketServer; EmitReadyRead])
          else Ok (socket, request,
                   log ++ [Warned "WebSocket received but no slots connected to QWebSocketServer::newConnection" [];
                           DisconnectFromHost])
        else
          Ok (socket, request,
              log ++ [Warned "Upgrade to %s not supported" value; DisconnectFromHost])
    | None =>
        (* line 113 reads it.value() with it == headers.end() *)
        Crash InvalidAccess
    end
  else
    let socket := commitTransaction socket in
    if handleRequest request
    then Ok (socket, request, log ++ [Handled true])
    else Ok (socket, request, log ++ [Handled false; MissingHandler]).

(** A connection: [handleReadyRead] runs at each [readyRead], for as long
    as the signal stays connected and the socket is not being closed. *)
Definition stopsReading (a : action) : bool :=
  match a with
  | DisconnectSignals | DisconnectReadyRead | DisconnectFromHost => true
  | _ => false
  end.

Definition arrive (chunk : list byte) (s : QTcpSocket) : QTcpSocket :=
  mkSocket (transactionStarted s) (unread s ++ chunk) (consumed s).

Fixpoint serve (chunks : list (list byte)) (socket : QTcpSocket)
  (request : QHttpServerRequestPrivate) : result (list action) :=
  match chunks with
  | [] => Ok []
  | chunk :: chunks' =>
      do step <- handleReadyRead (arrive chunk socket) request;
      let '(socket, request, log) := step in
      if existsb stopsReading log then Ok log else
      do rest <- serve chunks' socket request;
      Ok (log ++ rest)
  end.

End HandleReadyRead.
End Server.

(** ** Devices

    Three devices behind the [QIODevice] interface: a file, which is
    random-access, knows its size and cannot be opened when it does not
    exist; a pipe, which is sequential; and a sink that takes a bounded
    number of bytes per call, as a device with a small output buffer does. *)

Module Devices.

Record QFile : Type := mkFile {
  file_exists : bool;
  file_mode : Z;
  file_data : list byte;
  file_pos : Z;
}.

Definition file_isOpen (f : QFile) : bool := negb (file_mode f =? NotOpen).

Definition file_open (mode : Z) (f : QFile) : bool * QFile :=
  if file_exists f then (true, mkFile true mode (file_data f) 0) else (false, f).

Definition file_size (f : QFile) : Z := Z.of_nat (length (file_data f)).

Definition file_bytesAvailable (f : QFile) : Z :=
  if file_isOpen f then Z.max 0 (file_size f - file_pos f) else 0.

Definition file_atEnd (f : QFile) : bool := file_bytesAvailable f =? 0.

Definition file_read (maxSize : Z) (f : QFile) : option (list byte) * QFile :=
  if Z.land (file_mode f) ReadOnly =? 0 then (None, f) else
  let bs := firstn (Z.to_nat maxSize) (skipn (Z.to_nat (file_pos f)) (file_data f)) in
  (Some bs, mkFile (file_exists f) (file_mode f) (file_data f)
              (file_pos f + Z.of_nat (length bs))).

#[global] Instance QFile_in : QIODeviceIn QFile := {|
  isOpen := file_isOpen;
  openMode := file_mode;
  open := file_open;
  isSequential := fun _ => false;
  size := file_size;
  atEnd := file_atEnd;
  bytesAvailable := file_bytesAvailable;
  read := file_read;
|}.

(** A file that exists, opened for reading at its start. *)
Definition openFile (data : list byte) : QFile := mkFile true ReadOnly data 0.

Record Pipe : Type := mkPipe {
  pipe_mode : Z;
  pipe_ready : list byte;      (* the bytes that can be read now *)
}.

Definition pipe_read (maxSize : Z) (p : Pipe) : option (list byte) * Pipe :=
  if Z.land (pipe_mode p) ReadOnly =? 0 then (None, p) else
  (Some (firstn (Z.to_nat maxSize) (pipe_ready p)),
   mkPipe (pipe_mode p) (skipn (Z.to_nat maxSize) (pipe_ready p))).

#[global] Instance Pipe_in : QIODeviceIn Pipe := {|
  isOpen := fun p => negb (pipe_mode p =? NotOpen);
  openMode := pipe_mode;
  open := fun mode p => (true, mkPipe mode (pipe_ready p));
  isSequential := fun _ => true;
  size := fun p => Z.of_nat (length (pipe_ready p));
  atEnd := fun p => Z.of_nat (length (pipe_ready p)) =? 0;
  bytesAvailable := fun p => Z.of_nat (length (pipe_ready p));
  read := pipe_read;
|}.

Record Throttled : Type := mkThrottled {
  perCall : Z;
  taken : list byte;
}.

Definition throttled_write (bs : list byte) (s : Throttled) : Z * Throttled :=
  let k := Z.min (perCall s) (Z.of_nat (length bs)) in
  (k, mkThrottled (perCall s) (taken s ++ firstn (Z.to_nat k) bs)).

#[global] Instance Throttled_out : QIODeviceOut Throttled :=
  {| write := throttled_write |}.

End Devices.

(** ** Vocabulary of the statements *)

Module Props.

Import Chunked.

Section Window.

Context {Src Snk : Type} `{QIODeviceIn Src} `{QIODeviceOut Snk}.

(** The buffer window lies inside the buffer of capacity [capacity]. *)
Definition windowInBounds (capacity : Z) (t : IOChunkedTransfer (Src:=Src) (Snk:=Snk)) : Prop :=
  0 <= beginIndex t /\ beginIndex t <= endIndex t /\ endIndex t <= capacity.

(** A write was issued between [t] and [t']: the history grew by [c]. *)
Definition wrote (t t' : IOChunkedTransfer (Src:=Src) (Snk:=Snk)) (c : SinkWrite) : Prop :=
  issued t' = issued t ++ [c].

(** A step either leaves the history of writes and [writeReady] alone, or
    issues one write, with [writeReady] true before and false after. *)
Definition quietOrOne (t t' : IOChunkedTransfer (Src:=Src) (Snk:=Snk)) : Prop :=
  (issued t' = issued t /\ writeReady t' = writeReady t)
  \/ (exists c, wrote t t' c /\ writeReady t = true /\ writeReady t' = false).

(** With a sink that takes its writes whole, the window is either the whole
    of the last chunk or empty. *)
Definition settled (capacity : Z) (t : IOChunkedTransfer (Src:=Src) (Snk:=Snk)) : Prop :=
  0 <= endIndex t /\ endIndex t <= capacity /\
  (beginIndex t = 0 \/ beginIndex t = endIndex t).

(** The state in which [readFromInput] leaves a chunk [bs] it has read. *)
Definition loaded (capacity : Z) (bs : list byte) (source' : Src)
  (t : IOChunkedTransfer (Src:=Src) (Snk:=Snk)) : IOChunkedTransfer :=
  set_buffer (zeroFrom capacity (Z.of_nat (length bs)) (storeAtStart bs (buffer t)))
    (set_endIndex (Z.of_nat (length bs))
       (set_buffer (storeAtStart bs (buffer t))
          (set_source source' (set_beginIndex 0 t)))).

(** The state after the sink, now [sink'], has taken that chunk whole. *)
Definition drained (bs : list byte) (sink' : Snk)
  (t : IOChunkedTransfer (Src:=Src) (Snk:=Snk)) : IOChunkedTransfer :=
  let t1 := set_beginIndex (0 + Z.of_nat (length bs))
              (set_writeReady false
                 (record_write (mkSinkWrite 0 (Z.of_nat (length bs)) bs
                                  (Z.of_nat (length bs)))
                    (set_sink sink' t))) in
  if negb (bytesAvailable (source t) =? 0)
  then set_readTimers (S (readTimers t)) t1
  else if atEnd (source t) then set_sourceDeleteLater true t1 else t1.

End Window.

(** The events of [n] turns of the event loop while a file is streamed: the
    zero timer, then the socket's [bytesWritten]. *)
Definition rounds (n : nat) : list event :=
  concat (repeat [ReadTimer; BytesWritten] n).

(** A transfer from a file holding [data] to a socket that had [queued]
    bytes, when the first [pos] bytes of the file have gone through. *)
Definition streaming (data queued : list byte) (pos : Z)
  (t : IOChunkedTransfer (Src:=Devices.QFile) (Snk:=Responder.QTcpSocket)) : Prop :=
  source t = Devices.mkFile true ReadOnly data pos
  /\ sink t = Responder.mkSocket true (queued ++ firstn (Z.to_nat pos) data)
  /\ delivered (issued t) = firstn (Z.to_nat pos) data
  /\ writeLengths (issued t) = pos
  /\ beginIndex t = endIndex t
  /\ writeReady t = false
  /\ destroyed t = false
  /\ (if pos <? Z.of_nat (length data)
      then readTimers t = 1%nat /\ sourceDeleteLater t = false
      else sourceDeleteLater t = true).

(** The source of a streaming write is, or can be, opened for reading. *)
Definition readable {D : Type} `{QIODeviceIn D} (input : D) : bool :=
  if isOpen input
  then negb (Z.land (openMode input) ReadOnly =? 0)
  else fst (open ReadOnly input).

(** The device the streaming write goes on with once [readable] holds. *)
Definition opened {D : Type} `{QIODeviceIn D} (input : D) : D :=
  if isOpen input then input else snd (open ReadOnly input).

(** The lines [writeHeaders] emits for a list of headers. *)
Definition headerLines (hs : list (QByteArray * QByteArray)) : list byte :=
  concat (map (fun h => fst h ++ QByteArrayLiteral ": " ++ snd h ++ CRLF) hs).

Definition hasKey (key : QByteArray) (hs : list (QByteArray * QByteArray)) : bool :=
  existsb (fun h => bool_decide (map Byte.to_N (fst h) = map Byte.to_N key)) hs.

(** The status line for a status code and its reason phrase. *)
Definition statusLine (status : Z) (reason : QByteArray) : list byte :=
  QByteArrayLiteral "HTTP/1.1 " ++ number (Responder.quint32 status)
    ++ QByteArrayLiteral " " ++ reason ++ CRLF.

(** The two headers the buffered write adds for a body of [n] bytes. *)
Definition contentHeaders (mimeType : QByteArray) (n : Z)
  : list (QByteArray * QByteArray) :=
  [(Responder.contentTypeString, mimeType);
   (Responder.contentLengthString, number n)].

(** The headers the streaming write adds for its source. *)
Definition streamHeaders {D : Type} `{QIODeviceIn D} (input : D) (mimeType : QByteArray)
  : list (QByteArray * QByteArray) :=
  (if isSequential input then []
   else [(Responder.contentLengthString, number (size input))])
  ++ [(Responder.contentTypeString, mimeType)].

(** The message logged when the source of a streaming write is refused. *)
Definition refusal {D : Type} `{QIODeviceIn D} (input : D) : diagnostic :=
  if isOpen input
  then qDebug "500: Device is opened in a wrong mode"
  else qDebug "500: Could not open device %s".

Definition disconnectedWarning : diagnostic :=
  qWarning "Cannot write to socket. It's disconnected".

(** Scenario B of the specification, byte for byte. *)
Definition internalServerErrorResponse : list byte :=
  QByteArrayLiteral "HTTP/1.1 500 Internal Server Error" ++ CRLF
    ++ QByteArrayLiteral "Content-Type: application/x-empty" ++ CRLF
    ++ QByteArrayLiteral "Content-Length: 0" ++ CRLF
    ++ CRLF.

(** In a log of actions, the first [Parsed] after a dispatch finds the
    request in state [Idle]; [dispatched] tells whether a dispatch is
    waiting for its next [Parsed]. *)
Fixpoint resetBeforeNextParse (dispatched : bool) (log : list Server.action) : bool :=
  match log with
  | [] => true
  | Server.Handled _ :: rest => resetBeforeNextParse true rest
  | Server.Parsed st :: rest =>
      (negb dispatched || bool_decide (st = Server.Idle))
      && resetBeforeNextParse false rest
  | _ :: rest => resetBeforeNextParse dispatched rest
  end.

(** The socket and the request as [handleReadyRead] hands them to the
    parser: a transaction is open, and a request left at
    [OnMessageComplete] has been cleared. *)
Definition atParse (socket : Server.QTcpSocket) (request : Server.QHttpServerRequestPrivate)
  : Server.QTcpSocket * Server.QHttpServerRequestPrivate :=
  (if negb (Server.transactionStarted socket)
   then Server.startTransaction socket else socket,
   if bool_decide (Server.state request = Server.OnMessageComplete)
   then Server.clear request else request).

(** The upgrade is taken as a WebSocket upgrade: the library is built with
    WebSocket support, the header was found and its value is "websocket". *)
Definition takenAsWebSocket (QT_WEBSOCKETS_LIB : bool)
  (it : option (QByteArray * QByteArray)) : bool :=
  QT_WEBSOCKETS_LIB
  && match it with
     | Some (_, value) => Server.equalsIgnoreCase value (QByteArrayLiteral "websocket")
     | None => false
     end.

Definition isHandled (a : Server.action) : bool :=
  match a with Server.Handled _ => true | _ => false end.

(** Sample data for the concrete runs. *)
Definition abcd : list byte := QByteArrayLiteral "abcd".

(** A block of [n] bytes as [malloc] may return it. *)
Definition block (n : nat) : list byte := repeat xaa n.

Definition megabyte : list byte := block (Z.to_nat Responder.DEFAULT_BUFFERSIZE).

Definition textPlain : QByteArray := QByteArrayLiteral "text/plain".

Definition slowSink : Devices.Throttled := Devices.mkThrottled 3 [].

Definition reasons : gmap Z QByteArray :=
  {[ 200 := QByteArrayLiteral "OK";
     500 := QByteArrayLiteral "Internal Server Error" ]}.

Definition closedSocket : Responder.QTcpSocket := Responder.mkSocket false [].
Definition openSocket : Responder.QTcpSocket := Responder.mkSocket true [].

Definition missingFile : Devices.QFile := Devices.mkFile false NotOpen [] 0.

Definition writeOnlyFile : Devices.QFile := Devices.mkFile true WriteOnly abcd 0.

Definition idlePipe : Devices.Pipe := Devices.mkPipe ReadOnly [].

(** A stand-in for the parser, told what to report by the first byte of
    the fragment: "G" a complete request, "U" a complete request asking to
    upgrade to h2c, "C" a CONNECT request, which the parser flags as an
    upgrade although it carries no such header, "P" a request still in its
    headers; anything else is a protocol error. *)
Definition lengthHash (key : QByteArray) : N := N.of_nat (length key).

Definition h2cHeaders : gmap N (QByteArray * QByteArray) :=
  {[ lengthHash (QByteArrayLiteral "upgrade")
     := (QByteArrayLiteral "Upgrade", QByteArrayLiteral "h2c") ]}.

Definition toyFeed (fragment : list byte) (r : Server.QHttpServerRequestPrivate)
  : bool * Server.QHttpServerRequestPrivate :=
  match fragment with
  | [] => (true, r)
  | b :: _ =>
      if (Byte.to_N b =? 71)%N then
        (true, Server.mkRequest Server.OnMessageComplete false (QByteArrayLiteral "/") ∅ [])
      else if (Byte.to_N b =? 85)%N then
        (true, Server.mkRequest Server.OnMessageComplete true (QByteArrayLiteral "/")
                 h2cHeaders [])
      else if (Byte.to_N b =? 67)%N then
        (true, Server.mkRequest Server.OnMessageComplete true (QByteArrayLiteral "/") ∅ [])
      else if (Byte.to_N b =? 80)%N then
        (true, Server.mkRequest Server.OnHeaders false (QByteArrayLiteral "/") ∅ [])
      else (false, r)
  end.

Definition freshSocket : Server.QTcpSocket := Server.mkSocket false [] [].

Definition freshRequest : Server.QHttpServerRequestPrivate :=
  Server.mkRequest Server.Idle false [] ∅ [].

End Props.

(** ** Further vocabulary: the pump *)

Module Pump.

Import Chunked.

(** A call on the sink that stays inside a buffer of [capacity] bytes. *)
Definition withinBuffer (capacity : Z) (c : SinkWrite) : Prop :=
  0 <= sw_offset c /\ 0 <= sw_maxSize c <= capacity
  /\ Z.of_nat (length (sw_data c)) = sw_maxSize c.

Section States.

Context {Src Snk : Type} `{QIODeviceIn Src} `{QIODeviceOut Snk}.

(** The indices are not negative, [endIndex] is at most the capacity, and
    so was every call made on the sink. *)
Definition bounded (capacity : Z) (t : IOChunkedTransfer (Src:=Src) (Snk:=Snk)) : Prop :=
  0 <= beginIndex t /\ 0 <= endIndex t <= capacity
  /\ Forall (withinBuffer capacity) (issued t).

(** The window is whole or empty and, when it holds bytes, lies inside the
    buffer. *)
Definition sound (capacity : Z) (t : IOChunkedTransfer (Src:=Src) (Snk:=Snk)) : Prop :=
  Props.settled capacity t
  /\ (beginIndex t <> endIndex t -> endIndex t <= Z.of_nat (length (buffer t))).



(** The state a failed read leaves. *)
Definition readFailed (source' : Src) (t : IOChunkedTransfer (Src:=Src) (Snk:=Snk))
  : IOChunkedTransfer :=
  warn "Error reading chunk: %s"
    (set_endIndex 0 (set_endIndex (-1) (set_source source' (set_beginIndex 0 t)))).

(** The state a failed write of [data] leaves, the sink being [sink']. *)
Definition writeFailed (data : list byte) (k : Z) (sink' : Snk)
  (t : IOChunkedTransfer (Src:=Src) (Snk:=Snk)) : IOChunkedTransfer :=
  warn "Error writing chunk: %s"
    (set_writeReady false
       (record_write (mkSinkWrite (beginIndex t) (endIndex t) data k)
          (set_sink sink' t))).

End States.

Definition digits : list byte := QByteArrayLiteral "0123456789".


(** A transfer holding "abcd" for a socket that has been closed: its
    writes fail. *)
Definition refusedBySink
  : IOChunkedTransfer (Src:=Devices.QFile) (Snk:=Responder.QTcpSocket) :=
  mkTransfer (Props.abcd ++ repeat x00 4) 0 4
    (Devices.mkFile true ReadOnly Props.abcd 4) Props.closedSocket true
    0 false false [] [].

End Pump.

(** ** The listening side of the server

    [QAbstractHttpServer::listen], [bind] and [servers] of
    qabstracthttpserver.cpp.  The HTTP server is a [QObject]: the model keeps
    the live [QTcpServer] objects by address, those that are children of the
    HTTP server in the order they were parented, and one entry per
    connection from a server's [newConnection] to [handleNewConnections]. *)

Module Listener.

Inductive QHostAddress : Type :=
| Any
| Address (ip : N).

Record QTcpServer : Type := mkServer {
  isListening : bool;
  serverPort : Z;
}.

Definition quint16 (z : Z) : Z := z mod 2 ^ 16.

Inductive QtMsgType : Type :=
| QtWarningMsg
| QtCriticalMsg.

Record QAbstractHttpServer : Type := mkHttpServer {
  objects : gmap positive QTcpServer;
  children : list positive;
  connections : list positive;
  messages : list (QtMsgType * string);
}.

Definition say (kind : QtMsgType) (msg : string) (st : QAbstractHttpServer)
  : QAbstractHttpServer :=
  mkHttpServer (objects st) (children st) (connections st) (messages st ++ [(kind, msg)]).

(** [new QTcpServer(this)]: a fresh object, not listening, parented to the
    HTTP server. *)
Definition newServer (st : QAbstractHttpServer) : positive * QAbstractHttpServer :=
  let p := fresh (dom (objects st)) in
  (p, mkHttpServer (<[p := mkServer false 0]> (objects st)) (children st ++ [p])
        (connections st) (messages st)).

(** [server->listen(address, port)]; [sys] is the system at the time of the
    call: the port it binds for the address and the port asked for, if it
    binds one. *)
Definition tcpListen (sys : QHostAddress -> Z -> option Z) (address : QHostAddress)
  (port : Z) (p : positive) (st : QAbstractHttpServer) : bool * QAbstractHttpServer :=
  match sys address (quint16 port) with
  | Some bound =>
      (true, mkHttpServer (<[p := mkServer true (quint16 bound)]> (objects st))
               (children st) (connections st) (messages st))
  | None => (false, st)
  end.

(** [delete server]: the object leaves its parent and its connections go. *)
Definition deleteServer (p : positive) (st : QAbstractHttpServer) : QAbstractHttpServer :=
  mkHttpServer (delete p (objects st))
    (List.filter (fun q => negb (Pos.eqb q p)) (children st))
    (List.filter (fun q => negb (Pos.eqb q p)) (connections st))
    (messages st).

(** [server->setParent(this)]. *)
Definition setParent (p : positive) (st : QAbstractHttpServer) : QAbstractHttpServer :=
  if bool_decide (p ∈ children st) then st
  else mkHttpServer (objects st) (children st ++ [p]) (connections st) (messages st).

(** [QObject::connect(server, newConnection, this, handleNewConnections,
    Qt::UniqueConnection)]. *)
Definition connectUnique (p : positive) (st : QAbstractHttpServer) : QAbstractHttpServer :=
  if bool_decide (p ∈ connections st) then st
  else mkHttpServer (objects st) (children st) (connections st ++ [p]) (messages st).

(** [bind(QTcpServer *server)]; [None] is the null pointer.  A pointer to
    an object that is not alive cannot be followed. *)
Definition bind (sys : QHostAddress -> Z -> option Z) (server : option positive)
  (st : QAbstractHttpServer) : result QAbstractHttpServer :=
  match server with
  | None =>
      let '(p, st) := newServer st in
      let '(listening, st) := tcpListen sys Any 0 p st in
      let st := if negb listening
                then say QtCriticalMsg "QTcpServer listen failed (%s)" st else st in
      Ok (connectUnique p st)
  | Some p =>
      match objects st !! p with
      | None => Crash InvalidAccess
      | Some tcp =>
          let st := if negb (isListening tcp)
                    then say QtWarningMsg "The TCP server %p is not listening." st
                    else st in
          let st := setParent p st in
          Ok (connectUnique p st)
      end
  end.

(** [listen(const QHostAddress &address, quint16 port)]. *)
Definition listen (sys : QHostAddress -> Z -> option Z) (address : QHostAddress)
  (port : Z) (st : QAbstractHttpServer) : result (Z * QAbstractHttpServer) :=
  let '(tcpServer, st) := newServer st in
  let '(listening, st) := tcpListen sys address port tcpServer st in
  if listening then
    match bind sys (Some tcpServer) st with
    | Crash f => Crash f
    | Ok st =>
        match objects st !! tcpServer with
        | Some tcp => Ok (serverPort tcp, st)
        | None => Crash InvalidAccess
        end
    end
  else Ok (-1, deleteServer tcpServer st).

(** [servers()]: the children that are TCP servers. *)
Definition servers (st : QAbstractHttpServer) : list positive := children st.

(** The object tree and the connections agree: no server is a child twice
    or connected twice, every child is alive, and every connected server is
    a child. *)
Definition consistent (st : QAbstractHttpServer) : Prop :=
  NoDup (children st) /\ NoDup (connections st)
  /\ (forall p, p ∈ children st -> is_Some (objects st !! p))
  /\ (forall p, p ∈ connections st -> p ∈ children st).

(** An HTTP server as its constructor leaves it. *)
Definition fresh_server : QAbstractHttpServer := mkHttpServer ∅ [] [] [].

(** A system on which only port 8080 is free, and one on which any port asked
    for is free, 49152 being picked when none is asked for. *)
Definition only8080 (address : QHostAddress) (port : Z) : option Z :=
  if port =? 8080 then Some 8080 else None.

Definition anyPort (address : QHostAddress) (port : Z) : option Z :=
  Some (if port =? 0 then 49152 else port).

(** An HTTP server beside a TCP server of the caller's that does not
    listen yet. *)
Definition withOwnServer : QAbstractHttpServer :=
  mkHttpServer {[ 1%positive := mkServer false 0 ]} [] [] [].

End Listener.

(** ** Sample upgrade requests *)

Module Upgrade.

Import Server.

Definition webSocketHeaders : gmap N (QByteArray * QByteArray) :=
  {[ Props.lengthHash (QByteArrayLiteral "upgrade")
     := (QByteArrayLiteral "Upgrade", QByteArrayLiteral "WebSocket") ]}.

(** A stand-in for the parser that finds a complete WebSocket upgrade
    request in any fragment that is not empty. *)
Definition upgradeFeed (fragment : list byte) (r : QHttpServerRequestPrivate)
  : bool * QHttpServerRequestPrivate :=
  match fragment with
  | [] => (true, r)
  | _ :: _ =>
      (true, mkRequest OnMessageComplete true (QByteArrayLiteral "/chat")
               webSocketHeaders [])
  end.

(** A socket on which the first part of a request has been read inside a
    transaction, and the rest has just arrived. *)
Definition midRequest : QTcpSocket :=
  mkSocket true (QByteArrayLiteral "Upgrade: WebSocket")
    (QByteArrayLiteral "GET /chat HTTP/1.1 ").

End Upgrade.

(** * Chunked transfer: the pump *)

Section ChunkedFacts.

Import Chunked Props.

Context {Src Snk : Type} `{QIODeviceIn Src} `{QIODeviceOut Snk}.
Variable QT_DEBUG : bool.
Variable BUFFERSIZE : Z.

Local Abbreviation transfer := (IOChunkedTransfer (Src:=Src) (Snk:=Snk)).
Local Abbreviation writeToOutput := (writeToOutput QT_DEBUG).
Local Abbreviation readFromInput := (readFromInput QT_DEBUG BUFFERSIZE).
Local Abbreviation fire := (fire QT_DEBUG BUFFERSIZE).
Local Abbreviation run := (run QT_DEBUG BUFFERSIZE).

(** What a call of [writeToOutput] that returns has done: nothing, behind
    its guard, or exactly one write of [endIndex] bytes at [beginIndex]. *)
Lemma writeToOutput_cases (t t' : transfer) :
  writeToOutput t = Ok t' ->
  (t' = t /\ (beginIndex t = endIndex t \/ writeReady t = false))
  \/ (writeReady t = true /\ beginIndex t <> endIndex t /\
      exists data k sink',
        bytesAt (buffer t) (beginIndex t) (endIndex t) = Ok data /\
        write data (sink t) = (k, sink') /\
        wrote t t' (mkSinkWrite (beginIndex t) (endIndex t) data k) /\
        writeReady t' = false /\
        endIndex t' = endIndex t /\
        beginIndex t' = (if k <? 0 then beginIndex t else beginIndex t + k) /\
        buffer t' = buffer t /\ sink t' = sink' /\ source t' = source t /\
        destroyed t' = destroyed t).
Proof.
  unfold Chunked.writeToOutput, isBufferEmpty, Q_ASSERT, bind, wrote.
  destruct (QT_DEBUG && negb (beginIndex t <=? endIndex t)); [discriminate|].
  destruct (beginIndex t =? endIndex t) eqn:Hempty; simpl.
  { intros [= <-]. left. split; [reflexivity|]. left. lia. }
  destruct (writeReady t) eqn:Hready; simpl.
  2:{ intros [= <-]. left. auto. }
  destruct (bytesAt (buffer t) (beginIndex t) (endIndex t)) as [data|] eqn:Hdata;
    [|discriminate].
  destruct (write data (sink t)) as [k sink'] eqn:Hwrite.
  intros Hres. right. split; [reflexivity|]. split; [lia|].
  exists data, k, sink'. split; [reflexivity|]. split; [exact Hwrite|].
  destruct (k <? 0) eqn:Hk.
  { injection Hres as <-. simpl. tauto. }
  simpl in Hres.
  destruct (QT_DEBUG && negb (beginIndex t + k <=? endIndex t)); [discriminate|].
  destruct (beginIndex t + k =? endIndex t); simpl in Hres.
  - destruct (negb (bytesAvailable (source t) =? 0)).
    + injection Hres as <-. simpl. tauto.
    + destruct (atEnd (source t)); injection Hres as <-; simpl; tauto.
  - injection Hres as <-. simpl. tauto.
Qed.

Lemma bytesAt_length (buf data : list byte) (off len : Z) :
  bytesAt buf off len = Ok data -> 0 <= len /\ Z.of_nat (length data) = len.
Proof.
  unfold bytesAt.
  destruct ((0 <=? off) && (0 <=? len) && (off + len <=? Z.of_nat (length buf)))
    eqn:Hin; [|discriminate].
  intros [= <-].
  apply andb_prop in Hin as [Hin Hfit]. apply andb_prop in Hin as [Hoff Hlen].
  rewrite length_firstn, length_skipn. lia.
Qed.

(** The chunk just read is what the first write is handed. *)
Lemma bytesAt_fresh_chunk (bs raw : list byte) :
  bytesAt (zeroFrom BUFFERSIZE (Z.of_nat (length bs)) (storeAtStart bs raw))
    0 (Z.of_nat (length bs)) = Ok bs.
Proof.
  unfold zeroFrom, storeAtStart. rewrite Nat2Z.id, take_app_length.
  unfold bytesAt.
  assert (Hin : (0 <=? 0) && (0 <=? Z.of_nat (length bs))
                && (0 + Z.of_nat (length bs)
                    <=? Z.of_nat (length (bs ++ repeat x00
                                    (Z.to_nat (BUFFERSIZE - Z.of_nat (length bs))))))
                = true).
  { rewrite !andb_true_iff, !Z.leb_le, length_app. lia. }
  rewrite Hin, Nat2Z.id. change (Z.to_nat 0) with 0%nat.
  rewrite drop_0, take_app_length. reflexivity.
Qed.

Lemma isBufferEmpty_ordered (t : transfer) :
  beginIndex t <= endIndex t ->
  isBufferEmpty QT_DEBUG t = Ok (beginIndex t =? endIndex t).
Proof.
  intros Hle. unfold isBufferEmpty, Q_ASSERT.
  apply Z.leb_le in Hle. rewrite Hle, andb_false_r. reflexivity.
Qed.

(** What a call of [readFromInput] that returns has done: nothing while the
    window still holds bytes; otherwise one read, after which the window is
    [0, n) and, when [n] is positive, [writeToOutput] runs. *)
Lemma readFromInput_cases (t t' : transfer) :
  readFromInput t = Ok t' ->
  (t' = t /\ beginIndex t <> endIndex t)
  \/ (beginIndex t = endIndex t /\
      exists chunk source',
        read BUFFERSIZE (source t) = (chunk, source') /\
        match chunk with
        | None =>
            beginIndex t' = 0 /\ endIndex t' = 0 /\ issued t' = issued t /\
            writeReady t' = writeReady t /\ sink t' = sink t
        | Some bs =>
            exists t1 : transfer,
              beginIndex t1 = 0 /\ endIndex t1 = Z.of_nat (length bs) /\
              issued t1 = issued t /\ writeReady t1 = writeReady t /\
              sink t1 = sink t /\
              (t' = t1 \/ writeToOutput t1 = Ok t')
        end).
Proof.
  unfold Chunked.readFromInput, isBufferEmpty, Q_ASSERT, bind.
  destruct (QT_DEBUG && negb (beginIndex t <=? endIndex t)); [discriminate|].
  destruct (beginIndex t =? endIndex t) eqn:Hempty; simpl.
  2:{ intros [= <-]. left. split; [reflexivity|lia]. }
  destruct (read BUFFERSIZE (source t)) as [chunk source'] eqn:Hread.
  intros Hres. right. split; [lia|]. exists chunk, source'. split; [reflexivity|].
  destruct chunk as [bs|].
  - destruct (negb (Z.of_nat (length bs) =? 0)).
    + match type of Hres with Chunked.writeToOutput _ ?x = _ => exists x end.
      simpl. repeat split; auto.
    + injection Hres as <-. eexists. split; [|split; [|split; [|split; [|split]]]].
      6: left; reflexivity. all: reflexivity.
  - injection Hres as <-. simpl. tauto.
Qed.

Lemma writeToOutput_quietOrOne (t t' : transfer) :
  writeToOutput t = Ok t' -> quietOrOne t t'.
Proof.
  intros Hw. destruct (writeToOutput_cases t t' Hw) as [[-> _]|(Hr & _ & data & k & s & _ & _ & Hc & Hr' & _)].
  - left. auto.
  - right. eauto.
Qed.

Lemma readFromInput_quietOrOne (t t' : transfer) :
  readFromInput t = Ok t' -> quietOrOne t t'.
Proof.
  intros Hr. destruct (readFromInput_cases t t' Hr) as [[-> _]|(_ & chunk & s & _ & Hc)].
  - left. auto.
  - destruct chunk as [bs|].
    + destruct Hc as (t1 & _ & _ & Hi & Hw & _ & [->|Hout]).
      * left. auto.
      * apply writeToOutput_quietOrOne in Hout. unfold quietOrOne, wrote in *.
        rewrite Hi, Hw in Hout. exact Hout.
    + left. tauto.
Qed.

Lemma fire_quietOrOne (e : event) (t t' : transfer) :
  fire e t = Ok t' ->
  quietOrOne (if bool_decide (e = BytesWritten) then set_writeReady true t else t) t'
  \/ (destroyed t = true /\ t' = t).
Proof.
  unfold Chunked.fire. destruct (destroyed t) eqn:Hd.
  { intros [= <-]. right. auto. }
  destruct e; simpl.
  - intros Hw. left. now apply writeToOutput_quietOrOne.
  - destruct (readTimers t) as [|n].
    + intros [= <-]. left. left. auto.
    + intros Hr. left. apply readFromInput_quietOrOne in Hr. exact Hr.
  - destruct (sourceDeleteLater t); intros [= <-]; left; left; auto.
Qed.

(** While [writeReady] is false and no [bytesWritten] arrives, the events
    issue no write and leave [writeReady] false. *)
Lemma run_blocked (es : list event) (t t' : transfer) :
  run es t = Ok t' -> writeReady t = false -> ~ In BytesWritten es ->
  issued t' = issued t /\ writeReady t' = false.
Proof.
  revert t. induction es as [|e es IH]; intros t; simpl.
  { intros [= <-]. auto. }
  destruct (fire e t) as [t1|] eqn:Hfire; simpl; [|discriminate].
  intros Hrun Hready Hnot.
  assert (He : e <> BytesWritten) by (intros ->; apply Hnot; now left).
  assert (Hes : ~ In BytesWritten es) by (intros Hin; apply Hnot; now right).
  apply fire_quietOrOne in Hfire.
  rewrite bool_decide_eq_false_2 in Hfire by exact He.
  assert (issued t1 = issued t /\ writeReady t1 = false) as [Hi Hr].
  { destruct Hfire as [[[Hi Hr]|(c & _ & Habs & _)]|[_ ->]];
      [split; congruence|congruence|split; [reflexivity|assumption]]. }
  destruct (IH t1 Hrun Hr Hes) as [Hi' Hr']. split; congruence.
Qed.

(** C4.  Backpressure.  Whatever the state [t] and the event [e]: the step
    issues at most one write; a step that issues one leaves [writeReady]
    false, and found it true or was the sink's [bytesWritten] notification,
    which sets it; while [writeReady] is false, [writeToOutput] returns at
    its guard without touching anything (or stops at the assertion of
    [isBufferEmpty]), an event other than [bytesWritten] issues no write,
    and neither does any sequence [es] of such events. *)
Theorem backpressure (t t1 t2 : transfer) (e : event) (es : list event) :
  fire e t = Ok t1 -> run es t1 = Ok t2 -> ~ In BytesWritten es ->
  (issued t1 = issued t
   \/ exists c, wrote t t1 c /\ writeReady t1 = false /\
                (writeReady t = true \/ e = BytesWritten))
  /\ (writeReady t = false ->
      writeToOutput t = Ok t \/ writeToOutput t = Crash AssertionFailed)
  /\ (writeReady t = false -> e <> BytesWritten ->
      issued t1 = issued t /\ writeReady t1 = false)
  /\ (writeReady t1 = false -> issued t2 = issued t1 /\ writeReady t2 = false).
Proof.
  intros Hfire Hrun Hnot. split; [|split; [|split]].
  - destruct (fire_quietOrOne e t t1 Hfire) as [[[Hi _]|(c & Hc & Hr & Hr')]|[_ ->]];
      [left; destruct e; exact Hi| |left; reflexivity].
    right. exists c. destruct e; simpl in *; unfold wrote in *; auto.
  - intros Hready. unfold Chunked.writeToOutput, isBufferEmpty, Q_ASSERT, bind.
    destruct (QT_DEBUG && negb (beginIndex t <=? endIndex t)); [now right|].
    left. simpl. rewrite Hready, orb_true_r. reflexivity.
  - intros Hready He. apply (run_blocked [e] t t1); simpl; auto.
    + rewrite Hfire. reflexivity.
    + intros [->|[]]. congruence.
  - intros Hready. now apply (run_blocked es t1 t2).
Qed.

(** *** One chunk, read and then written whole *)

Lemma readFromInput_loads (t : transfer) (bs : list byte) (source' : Src) :
  beginIndex t = endIndex t ->
  read BUFFERSIZE (source t) = (Some bs, source') ->
  length bs <> 0%nat ->
  readFromInput t = writeToOutput (loaded BUFFERSIZE bs source' t).
Proof.
  intros Hempty Hread Hbs. unfold Chunked.readFromInput.
  rewrite isBufferEmpty_ordered by lia.
  apply Z.eqb_eq in Hempty. rewrite Hempty. cbn [bind negb].
  cbn [set_beginIndex source]. rewrite Hread.
  cbn [set_endIndex set_buffer set_source endIndex].
  assert (Hn : (Z.of_nat (length bs) =? 0) = false) by (apply Z.eqb_neq; lia).
  rewrite Hn. reflexivity.
Qed.

Lemma writeToOutput_blocked (t : transfer) :
  beginIndex t <= endIndex t -> writeReady t = false -> writeToOutput t = Ok t.
Proof.
  intros Hle Hready. unfold Chunked.writeToOutput.
  rewrite isBufferEmpty_ordered by exact Hle. cbn [bind].
  rewrite Hready, orb_true_r. reflexivity.
Qed.

Lemma writeToOutput_drains (t : transfer) (bs : list byte) (source' : Src) (sink' : Snk) :
  length bs <> 0%nat ->
  writeReady t = true ->
  write bs (sink t) = (Z.of_nat (length bs), sink') ->
  writeToOutput (loaded BUFFERSIZE bs source' t)
  = Ok (drained bs sink' (loaded BUFFERSIZE bs source' t)).
Proof.
  intros Hbs Hready Hwrite. unfold Chunked.writeToOutput.
  rewrite isBufferEmpty_ordered by (simpl; lia).
  cbn [loaded set_buffer set_endIndex set_source set_beginIndex
       beginIndex endIndex buffer sink writeReady bind].
  assert (Hn : (0 =? Z.of_nat (length bs)) = false) by (apply Z.eqb_neq; lia).
  rewrite Hn, Hready, bytesAt_fresh_chunk. cbn [orb negb bind].
  rewrite Hwrite.
  assert (Hk : (Z.of_nat (length bs) <? 0) = false) by (apply Z.ltb_ge; lia).
  rewrite Hk. rewrite isBufferEmpty_ordered by (simpl; lia).
  cbn [set_beginIndex set_writeReady record_write set_sink
       beginIndex endIndex bind].
  rewrite Z.eqb_refl. unfold drained.
  cbn [loaded set_buffer set_endIndex set_source set_beginIndex set_writeReady
       record_write set_sink source readTimers beginIndex].
  destruct (negb (bytesAvailable source' =? 0)); [reflexivity|].
  destruct (atEnd source'); reflexivity.
Qed.

(** *** The window, for a source that keeps the contract of [read] and a sink
        that takes its writes whole *)

Context `{!ReadContract Src} `{!WholeWrites Snk}.
Hypothesis capacity_nonneg : 0 <= BUFFERSIZE.

Lemma writeToOutput_settled (t t' : transfer) :
  settled BUFFERSIZE t -> writeToOutput t = Ok t' -> settled BUFFERSIZE t'.
Proof.
  intros (Hlo & Hhi & Hwin) Hw.
  destruct (writeToOutput_cases t t' Hw)
    as [[-> _]|(_ & Hne & data & k & s & Hdata & Hwrite & _ & _ & He & Hb & _)].
  { repeat split; assumption. }
  apply bytesAt_length in Hdata as [_ Hlen].
  apply write_whole in Hwrite.
  unfold settled. rewrite He, Hb. split; [lia|split; [lia|]].
  destruct (Z.ltb_spec k 0); [left; lia|].
  destruct Hwrite as [Hnone|Hall]; [left|right]; lia.
Qed.

(** With such a sink a write is only issued on a window that starts at
    zero, where [endIndex] bytes are the whole window. *)
Lemma settled_write_is_window (t t' : transfer) (c : SinkWrite) :
  settled BUFFERSIZE t -> writeToOutput t = Ok t' -> wrote t t' c ->
  sw_offset c = beginIndex t /\ sw_maxSize c = endIndex t - beginIndex t.
Proof.
  intros (_ & _ & Hwin) Hw Hc. unfold wrote in Hc.
  destruct (writeToOutput_cases t t' Hw)
    as [[-> _]|(_ & Hne & data & k & s & _ & _ & Hc' & _)].
  { apply (f_equal (@length _)) in Hc. rewrite length_app in Hc. simpl in Hc. lia. }
  unfold wrote in Hc'. rewrite Hc in Hc'. apply app_inj_tail in Hc' as [_ ->].
  simpl. lia.
Qed.

Lemma readFromInput_settled (t t' : transfer) :
  beginIndex t = endIndex t \/ settled BUFFERSIZE t ->
  readFromInput t = Ok t' -> settled BUFFERSIZE t'.
Proof.
  intros Hpre Hr.
  destruct (readFromInput_cases t t' Hr) as [[-> Hne]|(_ & chunk & s & Hread & Hc)].
  { destruct Hpre; [contradiction|assumption]. }
  destruct chunk as [bs|].
  - destruct Hc as (t1 & Hb & He & _ & _ & _ & Hout).
    assert (Hs : settled BUFFERSIZE t1).
    { apply read_at_most in Hread; [|exact capacity_nonneg].
      unfold settled. rewrite Hb, He. lia. }
    destruct Hout as [->|Hout]; [exact Hs|].
    now apply (writeToOutput_settled t1).
  - destruct Hc as (Hb & He & _). unfold settled. rewrite Hb, He. lia.
Qed.

Lemma fire_settled (e : event) (t t' : transfer) :
  settled BUFFERSIZE t -> fire e t = Ok t' -> settled BUFFERSIZE t'.
Proof.
  intros Hs. unfold Chunked.fire.
  destruct (destroyed t); [now intros [= <-]|].
  destruct e.
  - apply writeToOutput_settled. exact Hs.
  - destruct (readTimers t); [now intros [= <-]|].
    apply readFromInput_settled. right. exact Hs.
  - destruct (sourceDeleteLater t); now intros [= <-].
Qed.

Lemma run_settled (es : list event) (t t' : transfer) :
  settled BUFFERSIZE t -> run es t = Ok t' -> settled BUFFERSIZE t'.
Proof.
  revert t. induction es as [|e es IH]; intros t Hs; simpl.
  { now intros [= <-]. }
  destruct (fire e t) as [t1|] eqn:Hfire; simpl; [|discriminate].
  apply IH. now apply (fire_settled e t).
Qed.

Lemma construct_settled (raw : list byte) (input : Src) (output : Snk) (t : transfer) :
  construct QT_DEBUG BUFFERSIZE raw input output = Ok t -> settled BUFFERSIZE t.
Proof.
  unfold construct, Q_ASSERT, bind.
  destruct (QT_DEBUG && negb (negb (atEnd input))); [discriminate|].
  apply readFromInput_settled. left. reflexivity.
Qed.

Lemma isBufferEmpty_iff (t : transfer) :
  isBufferEmpty QT_DEBUG t = Ok true <-> beginIndex t = endIndex t.
Proof.
  unfold isBufferEmpty, Q_ASSERT, bind. split.
  - destruct (QT_DEBUG && negb (beginIndex t <=? endIndex t)); [discriminate|].
    intros [= Heq]. lia.
  - intros ->. rewrite Z.leb_refl, andb_false_r, Z.eqb_refl. reflexivity.
Qed.

(** C3, amended.  The members start at [beginIndex = endIndex = -1], an
    empty window below zero.  From the end of the constructor on, with a
    source that keeps the contract of [read] and a sink that takes each
    write whole or fails, every state that the events reach has
    [0 <= beginIndex <= endIndex <= BUFFERSIZE]; and [isBufferEmpty] answers
    true exactly when [beginIndex = endIndex]. *)
Theorem window_invariant (raw : list byte) (input : Src) (output : Snk)
  (es : list event) (t0 t : transfer) :
  construct QT_DEBUG BUFFERSIZE raw input output = Ok t0 ->
  run es t0 = Ok t ->
  windowInBounds BUFFERSIZE t
  /\ (isBufferEmpty QT_DEBUG t = Ok true <-> beginIndex t = endIndex t)
  /\ beginIndex (members raw input output) = -1
  /\ endIndex (members raw input output) = -1
  /\ isBufferEmpty QT_DEBUG (members raw input output) = Ok true.
Proof.
  intros Hc Hrun. split; [|split; [apply isBufferEmpty_iff|]].
  - apply construct_settled in Hc. apply (run_settled es t0 t Hc) in Hrun.
    destruct Hrun as (Hlo & Hhi & Hwin). unfold windowInBounds. lia.
  - repeat split. apply isBufferEmpty_iff. reflexivity.
Qed.

End ChunkedFacts.

(** *** The devices keep their contracts *)

#[global] Instance QFile_contract : ReadContract Devices.QFile.
Proof.
  intros maxSize d d' bs Hmax. simpl. unfold Devices.file_read.
  destruct (Z.land (Devices.file_mode d) ReadOnly =? 0); [discriminate|].
  intros [= <- _]. rewrite length_firstn. lia.
Qed.

#[global] Instance Pipe_contract : ReadContract Devices.Pipe.
Proof.
  intros maxSize d d' bs Hmax. simpl. unfold Devices.pipe_read.
  destruct (Z.land (Devices.pipe_mode d) ReadOnly =? 0); [discriminate|].
  intros [= <- _]. rewrite length_firstn. lia.
Qed.

#[global] Instance QTcpSocket_whole : WholeWrites Responder.QTcpSocket.
Proof.
  intros bs d d' k. simpl. unfold Responder.socket_write.
  destruct (Responder.sock_open d); intros [= <- _]; lia.
Qed.

(** *** A file streamed to a socket *)

Section ChunkedDelivery.

Import Chunked Props Devices.

Variable QT_DEBUG : bool.
Variable BUFFERSIZE : Z.
Hypothesis capacity_positive : 0 < BUFFERSIZE.

Variable data : list byte.
Variable queued : list byte.

Local Abbreviation transfer :=
  (IOChunkedTransfer (Src:=QFile) (Snk:=Responder.QTcpSocket)).
Local Abbreviation total := (Z.of_nat (length data)).

(** The chunk that a read at position [pos] returns. *)
Local Abbreviation chunkAt pos :=
  (firstn (Z.to_nat BUFFERSIZE) (skipn (Z.to_nat pos) data)).

Lemma run_app (es es' : list event) (t : transfer) :
  run QT_DEBUG BUFFERSIZE (es ++ es') t
  = (do t1 <- run QT_DEBUG BUFFERSIZE es t; run QT_DEBUG BUFFERSIZE es' t1).
Proof.
  revert t. induction es as [|e es IH]; intros t; cbn [app run]; [reflexivity|].
  destruct (fire QT_DEBUG BUFFERSIZE e t); cbn [bind]; [apply IH|reflexivity].
Qed.

Lemma delivered_snoc (cs : list SinkWrite) (c : SinkWrite) :
  delivered (cs ++ [c]) = delivered cs ++ accepted c.
Proof.
  unfold delivered. rewrite map_app, concat_app. cbn [map concat].
  now rewrite app_nil_r.
Qed.

Lemma writeLengths_snoc (cs : list SinkWrite) (c : SinkWrite) :
  writeLengths (cs ++ [c]) = writeLengths cs + Z.max 0 (sw_written c).
Proof.
  unfold writeLengths. induction cs as [|c' cs IH]; cbn [app fold_right]; lia.
Qed.

Lemma chunkAt_length (pos : Z) :
  0 <= pos < total ->
  0 < Z.of_nat (length (chunkAt pos)) /\ pos + Z.of_nat (length (chunkAt pos)) <= total.
Proof.
  intros Hpos. rewrite length_take, length_drop. lia.
Qed.

(** The chunk at [pos], read and taken whole by the socket, leaves the
    transfer streaming at the end of the chunk. *)
Lemma drained_streaming (pos : Z) (t : transfer) :
  0 <= pos < total ->
  sink t = Responder.mkSocket true (queued ++ firstn (Z.to_nat pos) data) ->
  delivered (issued t) = firstn (Z.to_nat pos) data ->
  writeLengths (issued t) = pos ->
  destroyed t = false -> readTimers t = 0%nat -> sourceDeleteLater t = false ->
  streaming data queued (pos + Z.of_nat (length (chunkAt pos)))
    (drained (chunkAt pos)
       (Responder.mkSocket true (queued ++ firstn (Z.to_nat pos) data ++ chunkAt pos))
       (loaded BUFFERSIZE (chunkAt pos)
          (mkFile true ReadOnly data (pos + Z.of_nat (length (chunkAt pos)))) t)).
Proof.
  intros Hpos Hsink Hdel Hlen Hdead Htimer Hlater.
  destruct (chunkAt_length pos Hpos) as [Hsome Hfit].
  set (bs := chunkAt pos) in *. set (n := Z.of_nat (length bs)) in *.
  assert (Htake : firstn (Z.to_nat pos) data ++ bs = firstn (Z.to_nat (pos + n)) data).
  { subst bs n. rewrite Z2Nat.inj_add, Nat2Z.id by lia.
    rewrite <- take_take_drop. f_equal. rewrite length_take.
    destruct (Nat.min_spec (Z.to_nat BUFFERSIZE)
                (length (skipn (Z.to_nat pos) data))) as [[_ ->]|[Hge ->]];
      [reflexivity|].
    rewrite !take_ge by lia. reflexivity. }
  assert (Hcommon : forall t' : transfer,
             source t' = mkFile true ReadOnly data (pos + n) ->
             sink t' = Responder.mkSocket true
                         (queued ++ firstn (Z.to_nat pos) data ++ bs) ->
             issued t' = issued t ++ [mkSinkWrite 0 n bs n] ->
             beginIndex t' = endIndex t' -> writeReady t' = false ->
             destroyed t' = false ->
             (if pos + n <? total
              then readTimers t' = 1%nat /\ sourceDeleteLater t' = false
              else sourceDeleteLater t' = true) ->
             streaming data queued (pos + n) t').
  { intros t' Hs Hk Hi Hw Hr Hd Ht. unfold streaming.
    rewrite Hs, Hk, Hi, delivered_snoc, writeLengths_snoc, Hdel, Hlen, <- Htake.
    unfold accepted. cbn [sw_written sw_data].
    replace (n <? 0) with false by (symmetry; apply Z.ltb_ge; lia).
    subst n. rewrite Nat2Z.id, firstn_all.
    repeat split; try assumption; try reflexivity. lia. }
  unfold drained.
  cbn [loaded set_buffer set_endIndex set_source set_beginIndex source readTimers].
  change (bytesAvailable (mkFile true ReadOnly data (pos + n)))
    with (Z.max 0 (total - (pos + n))).
  change (atEnd (mkFile true ReadOnly data (pos + n)))
    with (Z.max 0 (total - (pos + n)) =? 0).
  destruct (Z.ltb_spec (pos + n) total) as [Hmore|Hdone].
  - replace (Z.max 0 (total - (pos + n)) =? 0) with false
      by (symmetry; apply Z.eqb_neq; lia).
    cbn [negb]. apply Hcommon; cbn; try reflexivity; try assumption.
    rewrite Htimer. auto.
  - replace (Z.max 0 (total - (pos + n)) =? 0) with true
      by (symmetry; apply Z.eqb_eq; lia).
    cbn [negb]. apply Hcommon; cbn; try reflexivity; assumption.
Qed.

Lemma file_read_chunk (pos : Z) :
  read BUFFERSIZE (mkFile true ReadOnly data pos)
  = (Some (chunkAt pos),
     mkFile true ReadOnly data (pos + Z.of_nat (length (chunkAt pos)))).
Proof. reflexivity. Qed.

(** One turn of the event loop moves the next chunk. *)
Lemma streaming_round (pos : Z) (t : transfer) :
  0 <= pos < total -> streaming data queued pos t ->
  exists pos' t',
    run QT_DEBUG BUFFERSIZE [ReadTimer; BytesWritten] t = Ok t'
    /\ pos < pos' <= total /\ streaming data queued pos' t'.
Proof.
  intros Hpos (Hsrc & Hsink & Hdel & Hlen & Hwin & Hready & Hdead & Htimer).
  apply proj2 in Hpos as Hlt. apply Z.ltb_lt in Hlt. rewrite Hlt in Htimer.
  destruct Htimer as [Htimer Hlater].
  destruct (chunkAt_length pos Hpos) as [Hsome Hfit].
  exists (pos + Z.of_nat (length (chunkAt pos))).
  cbn [run]. unfold fire at 1. rewrite Hdead, Htimer.
  rewrite (readFromInput_loads QT_DEBUG BUFFERSIZE (set_readTimers 0 t) (chunkAt pos)
             (mkFile true ReadOnly data (pos + Z.of_nat (length (chunkAt pos)))));
    [|exact Hwin|cbn [set_readTimers source]; rewrite Hsrc; apply file_read_chunk|lia].
  rewrite writeToOutput_blocked; [|cbn; lia|exact Hready].
  cbn [bind]. unfold fire.
  cbn [loaded set_buffer set_endIndex set_source set_beginIndex set_readTimers
       destroyed]. rewrite Hdead.
  change (set_writeReady true ?x)
    with (loaded BUFFERSIZE (chunkAt pos)
            (mkFile true ReadOnly data (pos + Z.of_nat (length (chunkAt pos))))
            (set_writeReady true (set_readTimers 0 t))).
  rewrite (writeToOutput_drains QT_DEBUG BUFFERSIZE _ _ _
             (Responder.mkSocket true
                (queued ++ firstn (Z.to_nat pos) data ++ chunkAt pos)));
    [|lia|reflexivity
     |cbn [set_writeReady set_readTimers sink]; rewrite Hsink; cbn;
      now rewrite <- app_assoc].
  cbn [bind]. eexists. split; [reflexivity|]. split; [lia|].
  apply drained_streaming; cbn; auto.
Qed.

Lemma rounds_S (n : nat) :
  rounds (S n) = [ReadTimer; BytesWritten] ++ rounds n.
Proof. reflexivity. Qed.

Lemma streaming_completes (fuel : nat) (pos : Z) (t : transfer) :
  total - pos <= Z.of_nat fuel -> 0 <= pos <= total ->
  streaming data queued pos t ->
  exists n t',
    run QT_DEBUG BUFFERSIZE (rounds n) t = Ok t' /\ streaming data queued total t'.
Proof.
  revert pos t. induction fuel as [|fuel IH]; intros pos t Hfuel Hpos Hs.
  { exists 0%nat, t. split; [reflexivity|]. now replace total with pos by lia. }
  destruct (Z.eq_dec pos total) as [->|Hne].
  { exists 0%nat, t. split; [reflexivity|assumption]. }
  destruct (streaming_round pos t ltac:(lia) Hs) as (pos' & t1 & Hrun & Hpos' & Hs1).
  destruct (IH pos' t1 ltac:(lia) ltac:(lia) Hs1) as (n & t' & Hrest & Hs').
  exists (S n), t'. split; [|exact Hs'].
  rewrite rounds_S, run_app, Hrun. exact Hrest.
Qed.

(** The whole of a non-empty file reaches an open socket, in order and once:
    after the constructor and enough turns of the event loop the socket has
    queued the content behind what it held, the writes issued add up to the
    content, the window is empty and the source is released. *)
Theorem file_reaches_socket (raw : list byte) :
  data <> [] ->
  exists n t,
    (do t0 <- construct QT_DEBUG BUFFERSIZE raw (openFile data)
                (Responder.mkSocket true queued);
     run QT_DEBUG BUFFERSIZE (rounds n) t0) = Ok t
    /\ sink t = Responder.mkSocket true (queued ++ data)
    /\ delivered (issued t) = data
    /\ writeLengths (issued t) = total
    /\ beginIndex t = endIndex t
    /\ sourceDeleteLater t = true.
Proof.
  intros Hdata.
  assert (Hlen : 0 < total) by (destruct data; [contradiction|cbn; lia]).
  destruct (chunkAt_length 0 ltac:(lia)) as [Hsome Hfit].
  assert (Hstart : exists t0,
             construct QT_DEBUG BUFFERSIZE raw (openFile data)
               (Responder.mkSocket true queued) = Ok t0
             /\ streaming data queued (0 + Z.of_nat (length (chunkAt 0))) t0).
  { unfold construct, Q_ASSERT.
    change (atEnd (openFile data)) with (Z.max 0 (total - 0) =? 0).
    replace (Z.max 0 (total - 0) =? 0) with false by (symmetry; apply Z.eqb_neq; lia).
    cbn [negb]. rewrite andb_false_r. cbn [bind].
    rewrite (readFromInput_loads QT_DEBUG BUFFERSIZE _ (chunkAt 0)
               (mkFile true ReadOnly data (0 + Z.of_nat (length (chunkAt 0)))));
      [|reflexivity|apply file_read_chunk|lia].
    rewrite (writeToOutput_drains QT_DEBUG BUFFERSIZE _ _ _
               (Responder.mkSocket true (queued ++ firstn (Z.to_nat 0) data ++ chunkAt 0)));
      [|lia|reflexivity|reflexivity].
    eexists. split; [reflexivity|].
    apply drained_streaming; [lia| |reflexivity..].
    cbn. now rewrite app_nil_r. }
  destruct Hstart as (t0 & -> & Hs0). cbn [bind].
  destruct (streaming_completes (length data) (0 + Z.of_nat (length (chunkAt 0))) t0
              ltac:(lia) ltac:(lia) Hs0)
    as (n & t & Hrun & Hsrc & Hsink & Hdel & Hsum & Hwin & _ & _ & Hend).
  rewrite Z.ltb_irrefl in Hend.
  rewrite Nat2Z.id, firstn_all in Hsink, Hdel.
  exists n, t. auto 10.
Qed.

End ChunkedDelivery.

(** *** Concrete runs of the pump *)

Section ChunkedRuns.

Import Chunked Props Devices.

(** C1 at a window that does not start at zero.  A file holding "abcd" is
    streamed through a buffer of 8 bytes to a sink that takes 3 bytes per
    call.  The constructor's write leaves the window [3, 4); at the next
    [bytesWritten] the transfer asks the sink for 4 bytes at offset 3, not
    for the single byte of the window, and the range runs over the zeroed
    tail of the buffer. *)
Theorem pushToSink_asks_endIndex_bytes :
  exists tA tB,
    construct false 8 (block 8) (openFile abcd) slowSink = Ok tA
    /\ beginIndex tA = 3 /\ endIndex tA = 4
    /\ fire false 8 BytesWritten tA = Ok tB
    /\ wrote tA tB (mkSinkWrite 3 4 (QByteArrayLiteral "d" ++ [x00; x00; x00]) 3)
    /\ sw_maxSize (mkSinkWrite 3 4 (QByteArrayLiteral "d" ++ [x00; x00; x00]) 3)
       <> endIndex tA - beginIndex tA.
Proof.
  eexists _, _. split; [vm_compute; reflexivity|].
  split; [reflexivity|]. split; [reflexivity|].
  split; [vm_compute; reflexivity|].
  split; [reflexivity|]. simpl. lia.
Qed.

(** C2 on the same run.  The sink has received "abcd" followed by two zero
    bytes: six bytes for a source of four.  With assertions enabled the run
    stops at the assertion of [isBufferEmpty], the window being [6, 4). *)
Theorem partial_write_delivers_padding :
  exists tA tB,
    construct false 8 (block 8) (openFile abcd) slowSink = Ok tA
    /\ fire false 8 BytesWritten tA = Ok tB
    /\ delivered (issued tB) = abcd ++ [x00; x00]
    /\ taken (sink tB) = abcd ++ [x00; x00]
    /\ writeLengths (issued tB) = 6
    /\ file_size (openFile abcd) = 4
    /\ beginIndex tB = 6 /\ endIndex tB = 4
    /\ (do t <- construct true 8 (block 8) (openFile abcd) slowSink;
        fire true 8 BytesWritten t) = Crash AssertionFailed.
Proof.
  eexists _, _. split; [vm_compute; reflexivity|].
  split; [vm_compute; reflexivity|].
  repeat split; vm_compute; reflexivity.
Qed.

(** Scenario A of the specification: ten bytes through a buffer of four,
    to a socket, in three writes of 4, 4 and 2 bytes; the source is then
    released. *)
Example scenario_A :
  exists t,
    (do t0 <- construct true 4 (block 4) (openFile (QByteArrayLiteral "0123456789")) openSocket;
     run true 4 [ReadTimer; BytesWritten; ReadTimer; BytesWritten] t0) = Ok t
    /\ map sw_written (issued t) = [4; 4; 2]
    /\ map sw_offset (issued t) = [0; 0; 0]
    /\ delivered (issued t) = QByteArrayLiteral "0123456789"
    /\ Responder.sock_queue (sink t) = QByteArrayLiteral "0123456789"
    /\ beginIndex t = endIndex t
    /\ sourceDeleteLater t = true.
Proof.
  eexists. split; [vm_compute; reflexivity|].
  repeat split; vm_compute; reflexivity.
Qed.

(** C3 as stated, before the first read: the window of the freshly
    initialised members starts below zero. *)
Lemma window_before_first_read :
  ~ windowInBounds 8 (members (block 8) (openFile abcd) openSocket).
Proof.
  unfold windowInBounds. simpl. lia.
Qed.

Lemma window_invariant_witness :
  exists t0 t,
    0 <= 8
    /\ construct true 8 (block 8) (openFile abcd) openSocket = Ok t0
    /\ run true 8 [BytesWritten; DeferredDelete] t0 = Ok t
    /\ (windowInBounds 8 t
        /\ (isBufferEmpty true t = Ok true <-> beginIndex t = endIndex t)
        /\ beginIndex (members (block 8) (openFile abcd) openSocket) = -1
        /\ endIndex (members (block 8) (openFile abcd) openSocket) = -1
        /\ isBufferEmpty true (members (block 8) (openFile abcd) openSocket) = Ok true).
Proof.
  eexists _, _. split; [lia|].
  split; [vm_compute; reflexivity|].
  split; [vm_compute; reflexivity|].
  eapply (window_invariant true 8 ltac:(lia) (block 8) (openFile abcd) openSocket
            [BytesWritten; DeferredDelete]);
    vm_compute; reflexivity.
Defined.

Lemma backpressure_witness :
  exists t t1 t2,
    construct true 4 (block 4) (openFile (QByteArrayLiteral "0123456789")) openSocket = Ok t
    /\ fire true 4 ReadTimer t = Ok t1
    /\ run true 4 [ReadTimer; DeferredDelete] t1 = Ok t2
    /\ ~ In BytesWritten [ReadTimer; DeferredDelete]
    /\ ((issued t1 = issued t
         \/ exists c, wrote t t1 c /\ writeReady t1 = false /\
                      (writeReady t = true \/ ReadTimer = BytesWritten))
        /\ (writeReady t = false ->
            writeToOutput true t = Ok t \/ writeToOutput true t = Crash AssertionFailed)
        /\ (writeReady t = false -> ReadTimer <> BytesWritten ->
            issued t1 = issued t /\ writeReady t1 = false)
        /\ (writeReady t1 = false -> issued t2 = issued t1 /\ writeReady t2 = false)).
Proof.
  eexists _, _, _. split; [vm_compute; reflexivity|].
  split; [vm_compute; reflexivity|].
  split; [vm_compute; reflexivity|].
  split; [simpl; intros [Heq|[Heq|[]]]; discriminate|].
  apply (backpressure true 4 _ _ _ ReadTimer [ReadTimer; DeferredDelete]).
  - vm_compute; reflexivity.
  - vm_compute; reflexivity.
  - simpl; intros [Heq|[Heq|[]]]; discriminate.
Defined.

End ChunkedRuns.

(** * Responder: the write operations *)

Section ResponderFacts.

Import Responder Props.

Variable QT_DEBUG : bool.
Variable statusString : gmap Z QByteArray.

Local Abbreviation writeStatusLine := (writeStatusLine QT_DEBUG statusString).
Local Abbreviation writeBody := (writeBody QT_DEBUG).
Local Abbreviation write_bytes := (write_bytes QT_DEBUG statusString).
Local Abbreviation write_status := (write_status QT_DEBUG statusString).

Lemma put_open (bs : list byte) (d : QHttpServerResponderPrivate) :
  sock_open (socket d) = true ->
  put bs d = mkResponder (mkSocket true (sock_queue (socket d) ++ bs))
               (headers d) (messages d).
Proof.
  unfold put, socket_write. now intros ->.
Qed.

Lemma put_queue (bs q : list byte) (hs : list (QByteArray * QByteArray))
  (ms : list diagnostic) :
  put bs (mkResponder (mkSocket true q) hs ms)
  = mkResponder (mkSocket true (q ++ bs)) hs ms.
Proof. reflexivity. Qed.

Lemma put_closed (bs : list byte) (d : QHttpServerResponderPrivate) :
  sock_open (socket d) = false -> put bs d = d.
Proof.
  unfold put, socket_write. intros ->. now destruct d.
Qed.

Lemma writeHeader_fold_open (pending hs : list (QByteArray * QByteArray))
  (q : list byte) (ms : list diagnostic) :
  fold_left (fun d pair => writeHeader (fst pair) (snd pair) d) pending
    (mkResponder (mkSocket true q) hs ms)
  = mkResponder (mkSocket true (q ++ headerLines pending)) hs ms.
Proof.
  revert q. induction pending as [|[k v] pending IH]; intros q; cbn [fold_left].
  { unfold headerLines. cbn [map concat]. now rewrite app_nil_r. }
  unfold writeHeader. cbn [fst snd]. rewrite !put_queue, IH.
  change (headerLines ((k, v) :: pending))
    with ((k ++ QByteArrayLiteral ": " ++ v ++ CRLF) ++ headerLines pending).
  rewrite <- !app_assoc. reflexivity.
Qed.

Lemma writeHeaders_open (d : QHttpServerResponderPrivate) :
  sock_open (socket d) = true ->
  writeHeaders d = mkResponder
                     (mkSocket true (sock_queue (socket d) ++ headerLines (headers d)))
                     (headers d) (messages d).
Proof.
  unfold writeHeaders. destruct d as [[o q] hs ms]. simpl. intros ->.
  apply writeHeader_fold_open.
Qed.

Lemma writeHeaders_closed (d : QHttpServerResponderPrivate) :
  sock_open (socket d) = false -> writeHeaders d = d.
Proof.
  unfold writeHeaders. intros Hclosed.
  generalize (headers d) as pending. intros pending.
  induction pending as [|[k v] pending IH]; simpl; [reflexivity|].
  unfold writeHeader. repeat rewrite (put_closed _ d Hclosed). exact IH.
Qed.

Lemma writeStatusLine_open (status : StatusCode) (reason : QByteArray)
  (d : QHttpServerResponderPrivate) :
  sock_open (socket d) = true -> statusString !! status = Some reason ->
  writeStatusLine status defaultVersion d
  = Ok (mkResponder (mkSocket true (sock_queue (socket d) ++ statusLine status reason))
          (headers d) (messages d)).
Proof.
  intros Hopen Hreason.
  unfold Responder.writeStatusLine, statusString_at, Q_ASSERT, bind.
  rewrite Hopen, andb_false_r, Hreason.
  destruct d as [[o q] hs ms]. simpl in Hopen. subst o.
  rewrite !put_queue. unfold statusLine, defaultVersion.
  cbn [socket sock_queue headers messages fst snd].
  rewrite <- !app_assoc. reflexivity.
Qed.

(** The buffered write on an open socket: status line, the pending headers
    followed by [Content-Type] and [Content-Length], a blank line, the body. *)
Lemma write_bytes_open (data mimeType : QByteArray) (status : StatusCode)
  (reason : QByteArray) (d : QHttpServerResponderPrivate) :
  sock_open (socket d) = true -> statusString !! status = Some reason ->
  write_bytes data mimeType status d
  = Ok (mkResponder
          (mkSocket true
             (sock_queue (socket d) ++ statusLine status reason
                ++ headerLines (headers d ++ contentHeaders mimeType (Z.of_nat (length data)))
                ++ CRLF ++ data))
          (headers d ++ contentHeaders mimeType (Z.of_nat (length data)))
          (messages d)).
Proof.
  intros Hopen Hreason. unfold Responder.write_bytes.
  rewrite (writeStatusLine_open status reason d Hopen Hreason).
  cbn [bind]. unfold addHeaders, addHeader.
  cbn [socket sock_open sock_queue headers messages].
  rewrite writeHeaders_open by reflexivity.
  cbn [socket sock_open sock_queue headers messages].
  unfold Responder.writeBody, Q_ASSERT. cbn [sock_open socket negb].
  rewrite andb_false_r. cbn [bind]. unfold put, socket_write.
  cbn [socket sock_open sock_queue headers messages fst snd].
  unfold contentHeaders. rewrite <- !app_assoc. reflexivity.
Qed.

(** The buffered write on a closed socket: it stops at the assertion of
    [writeStatusLine] when assertions are enabled. *)
Lemma write_bytes_closed_debug (data mimeType : QByteArray) (status : StatusCode)
  (d : QHttpServerResponderPrivate) :
  sock_open (socket d) = false ->
  Responder.write_bytes true statusString data mimeType status d = Crash AssertionFailed.
Proof.
  intros Hclosed. unfold Responder.write_bytes, Responder.writeStatusLine, Q_ASSERT.
  rewrite Hclosed. reflexivity.
Qed.

(** With assertions compiled out, every write is refused by the closed
    socket; the two content headers are still added, and the responder logs
    nothing of its own. *)
Lemma write_bytes_closed_release (data mimeType : QByteArray) (status : StatusCode)
  (reason : QByteArray) (d : QHttpServerResponderPrivate) :
  sock_open (socket d) = false -> statusString !! status = Some reason ->
  Responder.write_bytes false statusString data mimeType status d
  = Ok (mkResponder (socket d)
          (headers d ++ contentHeaders mimeType (Z.of_nat (length data)))
          (messages d)).
Proof.
  intros Hclosed Hreason.
  unfold Responder.write_bytes, Responder.writeStatusLine, statusString_at, Q_ASSERT.
  rewrite Hreason. cbn [andb bind].
  repeat rewrite (put_closed _ d Hclosed). cbn [bind].
  unfold addHeaders, addHeader. cbn [socket headers messages].
  rewrite writeHeaders_closed by exact Hclosed.
  unfold Responder.writeBody, Q_ASSERT. cbn [andb bind].
  rewrite !put_closed by (rewrite ?put_closed; exact Hclosed).
  unfold contentHeaders. rewrite <- app_assoc. reflexivity.
Qed.

Section StreamingFacts.

Context {D : Type} `{QIODeviceIn D}.

Local Abbreviation stream := (stream QT_DEBUG statusString).
Local Abbreviation write_device := (write_device QT_DEBUG statusString).

(** The streaming write goes on to [stream] exactly when its source is, or
    can be, opened for reading. *)
Lemma write_device_readable (raw : list byte) (input : D) (mimeType : QByteArray)
  (status : StatusCode) (d : QHttpServerResponderPrivate) :
  readable input = true ->
  write_device raw input mimeType status d
  = stream raw (opened input) mimeType status d.
Proof.
  unfold readable, opened, Responder.write_device.
  destruct (isOpen input); simpl.
  - destruct (Z.land (openMode input) ReadOnly =? 0); [discriminate|reflexivity].
  - destruct (open ReadOnly input) as [ok input']. simpl. now intros ->.
Qed.

(** Otherwise it logs the refusal and hands over to the status-only write. *)
Lemma write_device_refused (raw : list byte) (input : D) (mimeType : QByteArray)
  (status : StatusCode) (d : QHttpServerResponderPrivate) :
  readable input = false ->
  write_device raw input mimeType status d
  = (do d' <- write_status InternalServerError (say (refusal input) d); Ok (d', None)).
Proof.
  unfold readable, refusal, Responder.write_device.
  destruct (isOpen input); simpl.
  - destruct (Z.land (openMode input) ReadOnly =? 0); [reflexivity|discriminate].
  - destruct (open ReadOnly input) as [ok input']. simpl. now intros ->.
Qed.

(** The constructor of a transfer, on an open socket, returns, and can only
    append to what the socket has queued. *)
Lemma construct_on_socket (raw : list byte) (input : D) (s : QTcpSocket) :
  sock_open s = true -> atEnd input = false ->
  exists t tail,
    Chunked.construct QT_DEBUG DEFAULT_BUFFERSIZE raw input s = Ok t
    /\ Chunked.sink t = mkSocket true (sock_queue s ++ tail).
Proof.
  intros Hopen Hend. destruct s as [o q]. simpl in Hopen. subst o.
  unfold Chunked.construct, Q_ASSERT. rewrite Hend. cbn [negb].
  rewrite andb_false_r. cbn [bind].
  unfold Chunked.readFromInput.
  rewrite isBufferEmpty_ordered by (simpl; lia).
  cbn -[Chunked.zeroFrom Chunked.storeAtStart Chunked.writeToOutput DEFAULT_BUFFERSIZE Z.of_nat].
  destruct (read DEFAULT_BUFFERSIZE input) as [[bs|] input'].
  2:{ eexists _, []. split; [reflexivity|]. simpl. now rewrite app_nil_r. }
  destruct (Z.of_nat (length bs) =? 0) eqn:Hzero; cbn [negb].
  { eexists _, []. split; [reflexivity|]. simpl. now rewrite app_nil_r. }
  unfold Chunked.writeToOutput.
  rewrite isBufferEmpty_ordered by (simpl; lia).
  cbn -[Chunked.zeroFrom Chunked.storeAtStart Chunked.bytesAt DEFAULT_BUFFERSIZE
        Z.of_nat Z.eqb Z.ltb Z.add Chunked.isBufferEmpty].
  rewrite Z.eqb_sym, Hzero, bytesAt_fresh_chunk. cbn [orb bind].
  assert (Hk : (Z.of_nat (length bs) <? 0) = false) by (apply Z.ltb_ge; lia).
  rewrite Hk, isBufferEmpty_ordered by (simpl; lia).
  cbn -[Chunked.zeroFrom Chunked.storeAtStart DEFAULT_BUFFERSIZE Z.of_nat Z.eqb Z.add].
  rewrite Z.eqb_refl.
  destruct (negb (bytesAvailable input' =? 0));
    [|destruct (atEnd input')]; eexists _, bs; split; reflexivity.
Qed.

(** The streaming write past its checks, on an open socket: status line,
    the pending headers followed by those of the stream, a blank line, and
    what the constructor of the transfer writes, if one is created. *)
Lemma stream_open (raw : list byte) (input : D) (mimeType : QByteArray)
  (status : StatusCode) (reason : QByteArray) (d : QHttpServerResponderPrivate) :
  sock_open (socket d) = true -> statusString !! status = Some reason ->
  exists tr tail ms,
    stream raw input mimeType status d
    = Ok (mkResponder
            (mkSocket true
               (sock_queue (socket d) ++ statusLine status reason
                  ++ headerLines (headers d ++ streamHeaders input mimeType)
                  ++ CRLF ++ tail))
            (headers d ++ streamHeaders input mimeType) ms, tr)
    /\ (atEnd input = true -> tr = None /\ tail = []).
Proof.
  intros Hopen Hreason. unfold Responder.stream.
  rewrite Hopen. cbn [negb].
  rewrite (writeStatusLine_open status reason d Hopen Hreason). cbn [bind].
  set (d1 := addHeader contentTypeString mimeType _).
  assert (Hd1 : d1 = mkResponder
                       (mkSocket true (sock_queue (socket d) ++ statusLine status reason))
                       (headers d ++ streamHeaders input mimeType) (messages d)).
  { subst d1. unfold streamHeaders, addHeader.
    destruct (isSequential input); cbn [negb socket headers messages];
      rewrite <- ?app_assoc; reflexivity. }
  rewrite Hd1. rewrite writeHeaders_open by reflexivity.
  unfold put, socket_write. cbn [socket sock_open sock_queue headers messages snd].
  destruct (atEnd input) eqn:Hend.
  - eexists None, [], _. split; [|auto].
    unfold say. cbn [socket headers messages].
    rewrite app_nil_r, <- !app_assoc. reflexivity.
  - destruct (construct_on_socket raw input
                (mkSocket true
                   (((sock_queue (socket d) ++ statusLine status reason)
                     ++ headerLines (headers d ++ streamHeaders input mimeType))
                    ++ CRLF))
                eq_refl Hend) as (t & tail & -> & Hsink).
    cbn [bind]. rewrite Hsink. eexists (Some t), tail, _.
    split; [|discriminate]. cbn [sock_queue].
    rewrite <- !app_assoc. reflexivity.
Qed.

Lemma hasKey_app (key : QByteArray) (hs hs' : list (QByteArray * QByteArray)) :
  hasKey key (hs ++ hs') = hasKey key hs || hasKey key hs'.
Proof.
  unfold hasKey. apply existsb_app.
Qed.

Lemma hasKey_streamHeaders (input : D) (mimeType : QByteArray) :
  hasKey contentLengthString (streamHeaders input mimeType)
  = negb (isSequential input).
Proof.
  unfold streamHeaders. destruct (isSequential input); reflexivity.
Qed.

(** C5, amended.  On a socket that is not open: the streaming write whose
    source is, or can be, opened for reading does nothing but log one
    warning (no byte queued, no header added, no transfer created); the
    buffered and the status-only write have no such guard and stop at the
    assertion of [writeStatusLine] when assertions are enabled; with
    assertions compiled out the socket refuses every byte, the two content
    headers are still added and the responder logs nothing of its own. *)
Theorem closed_socket_writes (raw : list byte) (input : D)
  (data mimeType : QByteArray) (status : StatusCode) (reason : QByteArray)
  (d : QHttpServerResponderPrivate) :
  sock_open (socket d) = false -> readable input = true ->
  statusString !! status = Some reason ->
  write_device raw input mimeType status d = Ok (say disconnectedWarning d, None)
  /\ Responder.write_bytes true statusString data mimeType status d
     = Crash AssertionFailed
  /\ Responder.write_status true statusString status d = Crash AssertionFailed
  /\ Responder.write_bytes false statusString data mimeType status d
     = Ok (mkResponder (socket d)
             (headers d ++ contentHeaders mimeType (Z.of_nat (length data)))
             (messages d)).
Proof.
  intros Hclosed Hreadable Hreason. split; [|split; [|split]].
  - rewrite write_device_readable by exact Hreadable.
    unfold Responder.stream. rewrite Hclosed. reflexivity.
  - now apply write_bytes_closed_debug.
  - now apply write_bytes_closed_debug.
  - now apply (write_bytes_closed_release data mimeType status reason).
Qed.

(** C6, amended.  A streaming write whose source cannot be opened for
    reading, or is open in a mode without reading, logs the refusal and is
    replaced by the status-only write of 500; on an open socket this queues
    the 500 response after what was queued, creates no transfer and does
    not fail. *)
Theorem refused_source_gets_500 (raw : list byte) (input : D)
  (mimeType : QByteArray) (status : StatusCode) (reason : QByteArray)
  (d : QHttpServerResponderPrivate) :
  readable input = false -> sock_open (socket d) = true ->
  statusString !! InternalServerError = Some reason ->
  write_device raw input mimeType status d
  = (do d' <- write_status InternalServerError (say (refusal input) d); Ok (d', None))
  /\ write_device raw input mimeType status d
     = Ok (mkResponder
             (mkSocket true
                (sock_queue (socket d) ++ statusLine InternalServerError reason
                   ++ headerLines
                        (headers d
                           ++ contentHeaders (QByteArrayLiteral "application/x-empty") 0)
                   ++ CRLF))
             (headers d ++ contentHeaders (QByteArrayLiteral "application/x-empty") 0)
             (messages d ++ [refusal input]),
           None).
Proof.
  intros Hrefused Hopen Hreason.
  rewrite write_device_refused by exact Hrefused. split; [reflexivity|].
  unfold Responder.write_status.
  rewrite (write_bytes_open [] _ InternalServerError reason (say (refusal input) d))
    by assumption.
  cbn [bind say socket headers messages length Z.of_nat].
  rewrite !app_nil_r. reflexivity.
Qed.

(** C7, amended.  A streaming write that gets past its checks (source
    readable, socket open) adds a [Content-Length] header holding the size
    of the source exactly when the source is not sequential, then
    [Content-Type], and emits the pending headers in order; when the source
    is sequential and no [Content-Length] was pending, none is emitted. *)
Theorem content_length_iff_not_sequential (raw : list byte) (input : D)
  (mimeType : QByteArray) (status : StatusCode) (reason : QByteArray)
  (d : QHttpServerResponderPrivate) :
  readable input = true -> sock_open (socket d) = true ->
  statusString !! status = Some reason ->
  hasKey contentLengthString (headers d) = false ->
  exists d' tr tail,
    write_device raw input mimeType status d = Ok (d', tr)
    /\ headers d'
       = headers d
         ++ (if isSequential (opened input) then []
             else [(contentLengthString, number (size (opened input)))])
         ++ [(contentTypeString, mimeType)]
    /\ sock_queue (socket d')
       = sock_queue (socket d) ++ statusLine status reason
         ++ headerLines (headers d') ++ CRLF ++ tail
    /\ hasKey contentLengthString (headers d') = negb (isSequential (opened input)).
Proof.
  intros Hreadable Hopen Hreason Hfresh.
  rewrite write_device_readable by exact Hreadable.
  destruct (stream_open raw (opened input) mimeType status reason d Hopen Hreason)
    as (tr & tail & ms & -> & _).
  eexists _, tr, tail. split; [reflexivity|].
  cbn [socket headers sock_queue]. split; [reflexivity|]. split; [reflexivity|].
  now rewrite hasKey_app, Hfresh, hasKey_streamHeaders.
Qed.

End StreamingFacts.

(** C8.  On a responder that has no pending header and whose socket is
    open, [write(StatusCode::InternalServerError)] appends to the socket's
    queue exactly the status line, [Content-Type], [Content-Length], and
    the blank line of Scenario B. *)
Theorem write_status_500_bytes (queued : list byte) :
  statusString !! InternalServerError
    = Some (QByteArrayLiteral "Internal Server Error") ->
  exists d',
    write_status InternalServerError (newResponder (mkSocket true queued)) = Ok d'
    /\ socket d' = mkSocket true (queued ++ internalServerErrorResponse).
Proof.
  intros Hreason. unfold Responder.write_status.
  rewrite (write_bytes_open [] _ InternalServerError _
             (newResponder (mkSocket true queued)) eq_refl Hreason).
  eexists. split; [reflexivity|]. reflexivity.
Qed.

End ResponderFacts.

(** *** Concrete calls of the write operations *)

Section ResponderCalls.

Import Responder Props Devices.

(** C5 as stated, on the status-only write: with assertions enabled, the
    call on a closed socket stops at the assertion. *)
Lemma status_write_on_closed_socket_stops :
  write_status true reasons 200 (newResponder closedSocket) = Crash AssertionFailed.
Proof. vm_compute. reflexivity. Qed.

(** C6 as stated, on a closed socket: the file does not exist, the 500 is
    substituted, and the substituted write stops at the assertion. *)
Lemma refused_source_on_closed_socket_stops :
  readable missingFile = false
  /\ write_device true reasons megabyte missingFile textPlain 200 (newResponder closedSocket)
     = Crash AssertionFailed.
Proof. split; reflexivity. Qed.

(** C7 as stated, on a closed socket: the file is not sequential, and no
    [Content-Length] is emitted, nor anything else. *)
Lemma closed_socket_emits_no_length :
  isSequential (openFile abcd) = false
  /\ write_device true reasons megabyte (openFile abcd) textPlain 200 (newResponder closedSocket)
     = Ok (mkResponder closedSocket [] [disconnectedWarning], None).
Proof. split; reflexivity. Qed.

(** A source that is open, but for writing only, gets the same 500. *)
Example write_only_source_gets_500 :
  readable writeOnlyFile = false
  /\ write_device true reasons megabyte writeOnlyFile textPlain 200 (newResponder openSocket)
     = Ok (mkResponder (mkSocket true internalServerErrorResponse)
             (contentHeaders (QByteArrayLiteral "application/x-empty") 0)
             [qDebug "500: Device is opened in a wrong mode"],
           None).
Proof. split; reflexivity. Qed.

(** An empty file and a pipe with nothing to read yet, on an open socket:
    the file's response carries its size, the pipe's carries no length. *)
Example empty_file_response :
  write_device true reasons megabyte (openFile []) textPlain 200 (newResponder openSocket)
  = Ok (mkResponder
          (mkSocket true
             (QByteArrayLiteral "HTTP/1.1 200 OK" ++ CRLF
                ++ QByteArrayLiteral "Content-Length: 0" ++ CRLF
                ++ QByteArrayLiteral "Content-Type: text/plain" ++ CRLF
                ++ CRLF))
          [(contentLengthString, number 0); (contentTypeString, textPlain)]
          [qDebug "No more data available."],
        None).
Proof. reflexivity. Qed.

Example idle_pipe_response :
  write_device true reasons megabyte idlePipe textPlain 200 (newResponder openSocket)
  = Ok (mkResponder
          (mkSocket true
             (QByteArrayLiteral "HTTP/1.1 200 OK" ++ CRLF
                ++ QByteArrayLiteral "Content-Type: text/plain" ++ CRLF
                ++ CRLF))
          [(contentTypeString, textPlain)]
          [qDebug "No more data available."],
        None).
Proof. reflexivity. Qed.

Lemma closed_socket_writes_witness :
  sock_open (socket (newResponder closedSocket)) = false
  /\ readable (openFile abcd) = true
  /\ reasons !! 200 = Some (QByteArrayLiteral "OK")
  /\ (write_device true reasons megabyte (openFile abcd) textPlain 200 (newResponder closedSocket)
      = Ok (say disconnectedWarning (newResponder closedSocket), None)
      /\ write_bytes true reasons abcd textPlain 200 (newResponder closedSocket)
         = Crash AssertionFailed
      /\ write_status true reasons 200 (newResponder closedSocket) = Crash AssertionFailed
      /\ write_bytes false reasons abcd textPlain 200 (newResponder closedSocket)
         = Ok (mkResponder (socket (newResponder closedSocket))
                 (headers (newResponder closedSocket)
                    ++ contentHeaders textPlain (Z.of_nat (length abcd)))
                 (messages (newResponder closedSocket)))).
Proof.
  split; [reflexivity|]. split; [reflexivity|]. split; [vm_compute; reflexivity|].
  apply (closed_socket_writes true reasons megabyte (openFile abcd) abcd textPlain 200
           (QByteArrayLiteral "OK") (newResponder closedSocket));
    [reflexivity|reflexivity|vm_compute; reflexivity].
Defined.

Lemma refused_source_gets_500_witness :
  readable missingFile = false
  /\ sock_open (socket (newResponder openSocket)) = true
  /\ reasons !! InternalServerError = Some (QByteArrayLiteral "Internal Server Error")
  /\ (write_device true reasons megabyte missingFile textPlain 200 (newResponder openSocket)
      = (do d' <- write_status true reasons InternalServerError
                    (say (refusal missingFile) (newResponder openSocket));
         Ok (d', None))
      /\ write_device true reasons megabyte missingFile textPlain 200 (newResponder openSocket)
         = Ok (mkResponder
                 (mkSocket true
                    (sock_queue (socket (newResponder openSocket))
                       ++ statusLine InternalServerError
                            (QByteArrayLiteral "Internal Server Error")
                       ++ headerLines
                            (headers (newResponder openSocket)
                               ++ contentHeaders (QByteArrayLiteral "application/x-empty") 0)
                       ++ CRLF))
                 (headers (newResponder openSocket)
                    ++ contentHeaders (QByteArrayLiteral "application/x-empty") 0)
                 (messages (newResponder openSocket) ++ [refusal missingFile]),
               None)).
Proof.
  split; [reflexivity|]. split; [reflexivity|]. split; [vm_compute; reflexivity|].
  apply (refused_source_gets_500 true reasons megabyte missingFile textPlain 200
           (QByteArrayLiteral "Internal Server Error") (newResponder openSocket));
    [reflexivity|reflexivity|vm_compute; reflexivity].
Defined.

Lemma content_length_iff_not_sequential_witness :
  readable (openFile abcd) = true
  /\ sock_open (socket (newResponder openSocket)) = true
  /\ reasons !! 200 = Some (QByteArrayLiteral "OK")
  /\ hasKey contentLengthString (headers (newResponder openSocket)) = false
  /\ exists d' tr tail,
       write_device true reasons megabyte (openFile abcd) textPlain 200 (newResponder openSocket)
       = Ok (d', tr)
       /\ headers d'
          = headers (newResponder openSocket)
            ++ (if isSequential (opened (openFile abcd)) then []
                else [(contentLengthString, number (size (opened (openFile abcd))))])
            ++ [(contentTypeString, textPlain)]
       /\ sock_queue (socket d')
          = sock_queue (socket (newResponder openSocket))
            ++ statusLine 200 (QByteArrayLiteral "OK")
            ++ headerLines (headers d') ++ CRLF ++ tail
       /\ hasKey contentLengthString (headers d')
          = negb (isSequential (opened (openFile abcd))).
Proof.
  split; [reflexivity|]. split; [reflexivity|]. split; [vm_compute; reflexivity|].
  split; [reflexivity|].
  apply (content_length_iff_not_sequential true reasons megabyte (openFile abcd) textPlain 200
           (QByteArrayLiteral "OK") (newResponder openSocket));
    [reflexivity|reflexivity|vm_compute; reflexivity|reflexivity].
Defined.

Lemma write_status_500_bytes_witness :
  reasons !! InternalServerError = Some (QByteArrayLiteral "Internal Server Error")
  /\ exists d',
       write_status true reasons InternalServerError (newResponder (mkSocket true []))
       = Ok d'
       /\ socket d' = mkSocket true ([] ++ internalServerErrorResponse).
Proof.
  split; [vm_compute; reflexivity|].
  apply (write_status_500_bytes true reasons []). vm_compute. reflexivity.
Defined.

End ResponderCalls.

(** * Connection: the read loop *)

Section ServerFacts.

Import Server Props.

Variable QT_WEBSOCKETS_LIB : bool.
Variable webSocketSignalConnected : bool.
Variable feed : list byte -> QHttpServerRequestPrivate -> bool * QHttpServerRequestPrivate.
Variable headerHash : QByteArray -> N.
Variable handleRequest : QHttpServerRequestPrivate -> bool.

Local Abbreviation handleReadyRead :=
  (handleReadyRead QT_WEBSOCKETS_LIB webSocketSignalConnected feed headerHash handleRequest).
Local Abbreviation serve :=
  (serve QT_WEBSOCKETS_LIB webSocketSignalConnected feed headerHash handleRequest).

(** C10.  For a request that the parser flags as an upgrade and that is not
    taken as a WebSocket upgrade, [handleReadyRead] reads the value found
    under the hash of "upgrade" for its warning and then disconnects from
    the host; when no header is stored under that hash, the value is read
    through the end iterator: the read is inside the map exactly when the
    request carries the header. *)
Theorem upgrade_rejection_reads_header (socket s1 : QTcpSocket)
  (request r1 : QHttpServerRequestPrivate) :
  parse feed (atParse socket request).1 (atParse socket request).2 = (true, s1, r1) ->
  upgrade r1 = true ->
  takenAsWebSocket QT_WEBSOCKETS_LIB
    (headers r1 !! headerHash (QByteArrayLiteral "upgrade")) = false ->
  match headers r1 !! headerHash (QByteArrayLiteral "upgrade") with
  | Some (_, value) =>
      exists log,
        handleReadyRead socket request
        = Ok (s1, r1, log ++ [Warned "Upgrade to %s not supported" value;
                              DisconnectFromHost])
  | None => handleReadyRead socket request = Crash InvalidAccess
  end.
Proof.
  unfold Server.handleReadyRead, atParse, takenAsWebSocket. cbn [fst snd].
  intros Hparse Hupgrade Hnot.
  destruct (bool_decide (state request = OnMessageComplete));
    rewrite Hparse; cbn [negb]; rewrite Hupgrade; cbn [negb andb];
    destruct (headers r1 !! headerHash (QByteArrayLiteral "upgrade")) as [[k v]|];
    try reflexivity; rewrite Hnot; eexists; reflexivity.
Qed.

Local Ltac checked_log :=
  intros rest; cbn -[bool_decide];
  rewrite ?bool_decide_eq_true_2 by reflexivity;
  rewrite ?orb_true_r; reflexivity.

(** One call of [handleReadyRead] seen by [resetBeforeNextParse]: its log
    passes the check, it holds a dispatch exactly when the handler ran, and
    the request is then left at [OnMessageComplete]. *)
Lemma handleReadyRead_checked (dispatched : bool) (socket s1 : QTcpSocket)
  (request r1 : QHttpServerRequestPrivate) (log : list action) :
  handleReadyRead socket request = Ok (s1, r1, log) ->
  (dispatched = true -> state request = OnMessageComplete) ->
  (forall rest, resetBeforeNextParse dispatched (log ++ rest)
                = resetBeforeNextParse (existsb isHandled log) rest)
  /\ (existsb isHandled log = true -> state r1 = OnMessageComplete).
Proof.
  unfold Server.handleReadyRead. intros Hres Hinv.
  assert (Hcases : state request = OnMessageComplete \/
                   (bool_decide (state request = OnMessageComplete) = false
                    /\ dispatched = false)).
  { destruct (decide (state request = OnMessageComplete)) as [Hst|Hst]; [now left|right].
    split; [now apply bool_decide_eq_false_2|].
    destruct dispatched; [now specialize (Hinv eq_refl)|reflexivity]. }
  destruct Hcases as [Hst|[Hst ->]];
    [rewrite (bool_decide_eq_true_2 _ Hst) in Hres|rewrite Hst in Hres];
    destruct (parse feed _ _) as [[ok s2] r2];
    (destruct ok; cbn [negb] in Hres;
     [|injection Hres as <- <- <-; split; [checked_log|discriminate]]);
    (destruct (upgrade r2) eqn:Hup; cbn [negb andb] in Hres;
     [destruct (headers r2 !! headerHash (QByteArrayLiteral "upgrade")) as [[k v]|];
      [|discriminate];
      destruct (QT_WEBSOCKETS_LIB && equalsIgnoreCase v (QByteArrayLiteral "websocket"));
      [destruct webSocketSignalConnected|];
      injection Hres as <- <- <-; (split; [checked_log|discriminate])
     |]);
    (destruct (bool_decide (state r2 = OnMessageComplete)) eqn:Hdone; cbn [negb] in Hres;
     [apply bool_decide_eq_true_1 in Hdone;
      destruct (handleRequest r2); injection Hres as <- <- <-;
      (split; [checked_log|intros _; exact Hdone])
     |injection Hres as <- <- <-; split; [checked_log|discriminate]]).
Qed.

(** C9.  On a connection, whatever the parser and the handler do: when a
    message has been dispatched to the handler, the next bytes are handed
    to the parser with the request cleared, in state [Idle]. *)
Theorem reset_before_next_message (chunks : list (list byte)) (socket : QTcpSocket)
  (request : QHttpServerRequestPrivate) (log : list action) :
  serve chunks socket request = Ok log ->
  resetBeforeNextParse false log = true.
Proof.
  assert (Hgen : forall chunks dispatched socket request log,
             (dispatched = true -> state request = OnMessageComplete) ->
             serve chunks socket request = Ok log ->
             resetBeforeNextParse dispatched log = true).
  { clear. induction chunks as [|chunk chunks IH];
      intros dispatched socket request log Hinv; cbn [Server.serve].
    { intros [= <-]. reflexivity. }
    destruct (handleReadyRead (arrive chunk socket) request) as [[[s1 r1] step]|] eqn:Hstep;
      cbn [bind]; [|discriminate].
    destruct (handleReadyRead_checked dispatched _ _ _ _ _ Hstep Hinv) as [Hcheck Hdone].
    destruct (existsb stopsReading step).
    - intros [= <-]. rewrite <- (app_nil_r step), Hcheck. reflexivity.
    - destruct (serve chunks s1 r1) as [rest|] eqn:Hrest; cbn [bind]; [|discriminate].
      intros [= <-]. rewrite Hcheck. apply (IH _ s1 r1); assumption. }
  apply Hgen. discriminate.
Qed.

End ServerFacts.

(** *** Concrete connections *)

Section ServerRuns.

Import Server Props.

(** A CONNECT request: flagged as an upgrade, no header to read. *)
Example connect_request_reads_past_the_headers :
  handleReadyRead true false toyFeed lengthHash (fun _ => true)
    (arrive (QByteArrayLiteral "CONNECT example.org:443 HTTP/1.1") freshSocket)
    freshRequest
  = Crash InvalidAccess.
Proof. vm_compute. reflexivity. Qed.

Lemma upgrade_rejection_reads_header_witness :
  parse toyFeed
    (atParse (arrive (QByteArrayLiteral "U") freshSocket) freshRequest).1
    (atParse (arrive (QByteArrayLiteral "U") freshSocket) freshRequest).2
  = (true,
     mkSocket true [] (QByteArrayLiteral "U"),
     mkRequest OnMessageComplete true (QByteArrayLiteral "/")
       h2cHeaders [])
  /\ takenAsWebSocket true
       (h2cHeaders !! lengthHash (QByteArrayLiteral "upgrade")) = false
  /\ exists log,
       handleReadyRead true false toyFeed lengthHash (fun _ => true)
         (arrive (QByteArrayLiteral "U") freshSocket) freshRequest
       = Ok (mkSocket true [] (QByteArrayLiteral "U"),
             mkRequest OnMessageComplete true (QByteArrayLiteral "/") h2cHeaders [],
             log ++ [Warned "Upgrade to %s not supported" (QByteArrayLiteral "h2c");
                     DisconnectFromHost]).
Proof.
  split; [vm_compute; reflexivity|]. split; [vm_compute; reflexivity|].
  apply (upgrade_rejection_reads_header true false toyFeed lengthHash (fun _ => true)
           (arrive (QByteArrayLiteral "U") freshSocket)
           (mkSocket true [] (QByteArrayLiteral "U"))
           freshRequest
           (mkRequest OnMessageComplete true (QByteArrayLiteral "/") h2cHeaders []));
    vm_compute; reflexivity.
Defined.

Lemma reset_before_next_message_witness :
  serve true false toyFeed lengthHash (fun _ => true)
    [QByteArrayLiteral "P"; QByteArrayLiteral "G"; QByteArrayLiteral "G"]
    freshSocket freshRequest
  = Ok [Parsed Idle; Parsed OnHeaders; Handled true;
        Cleared; Parsed Idle; Handled true]
  /\ resetBeforeNextParse false
       [Parsed Idle; Parsed OnHeaders; Handled true;
        Cleared; Parsed Idle; Handled true] = true.
Proof.
  split; [vm_compute; reflexivity|].
  apply (reset_before_next_message true false toyFeed lengthHash (fun _ => true)
           [QByteArrayLiteral "P"; QByteArrayLiteral "G"; QByteArrayLiteral "G"]
           freshSocket freshRequest).
  vm_compute. reflexivity.
Defined.

End ServerRuns.

(** * More on the pump *)

Section PumpFacts.

Import Chunked Props Pump.

Context {Src Snk : Type} `{QIODeviceIn Src} `{QIODeviceOut Snk}.
Variable QT_DEBUG : bool.
Variable BUFFERSIZE : Z.

Local Abbreviation transfer := (IOChunkedTransfer (Src:=Src) (Snk:=Snk)).
Local Abbreviation writeToOutput := (writeToOutput QT_DEBUG).
Local Abbreviation readFromInput := (readFromInput QT_DEBUG BUFFERSIZE).
Local Abbreviation fire := (fire QT_DEBUG BUFFERSIZE).
Local Abbreviation run := (run QT_DEBUG BUFFERSIZE).

(** The state after a write of [data] that the sink, now [sink'], answered
    with [k >= 0], before the emptiness test. *)
Local Abbreviation written data k sink' t :=
  (set_beginIndex (beginIndex t + k)
     (set_writeReady false
        (record_write (mkSinkWrite (beginIndex t) (endIndex t) data k)
           (set_sink sink' t)))).

(** Every way in which [writeToOutput] returns, with the state it leaves. *)
Lemma writeToOutput_effects (t t' : transfer) :
  writeToOutput t = Ok t' ->
  (t' = t /\ (beginIndex t = endIndex t \/ writeReady t = false))
  \/ (writeReady t = true /\ beginIndex t <> endIndex t /\
      exists data k sink',
        bytesAt (buffer t) (beginIndex t) (endIndex t) = Ok data
        /\ write data (sink t) = (k, sink')
        /\ ((k < 0 /\ t' = writeFailed data k sink' t)
            \/ (0 <= k /\ beginIndex t + k <> endIndex t
                /\ t' = written data k sink' t)
            \/ (0 <= k /\ beginIndex t + k = endIndex t
                /\ bytesAvailable (source t) <> 0
                /\ t' = set_readTimers (S (readTimers t)) (written data k sink' t))
            \/ (0 <= k /\ beginIndex t + k = endIndex t
                /\ bytesAvailable (source t) = 0 /\ atEnd (source t) = true
                /\ t' = set_sourceDeleteLater true (written data k sink' t))
            \/ (0 <= k /\ beginIndex t + k = endIndex t
                /\ bytesAvailable (source t) = 0 /\ atEnd (source t) = false
                /\ t' = written data k sink' t))).
Proof.
  unfold Chunked.writeToOutput, isBufferEmpty, Q_ASSERT, bind.
  destruct (QT_DEBUG && negb (beginIndex t <=? endIndex t)); [discriminate|].
  destruct (Z.eqb_spec (beginIndex t) (endIndex t)) as [Hempty|Hsome]; cbn [orb].
  { intros [= <-]. left. auto. }
  destruct (writeReady t) eqn:Hready; cbn [negb].
  2:{ intros [= <-]. left. auto. }
  destruct (bytesAt (buffer t) (beginIndex t) (endIndex t)) as [data|] eqn:Hdata;
    [|discriminate].
  destruct (write data (sink t)) as [k sink'] eqn:Hwrite.
  intros Hres. right. split; [reflexivity|]. split; [exact Hsome|].
  exists data, k, sink'. split; [reflexivity|]. split; [exact Hwrite|].
  destruct (Z.ltb_spec k 0) as [Hneg|Hpos].
  { injection Hres as <-. left. auto. }
  right. cbn [set_beginIndex set_writeReady record_write set_sink
              beginIndex endIndex source readTimers] in Hres.
  destruct (QT_DEBUG && negb (beginIndex t + k <=? endIndex t)); [discriminate|].
  destruct (Z.eqb_spec (beginIndex t + k) (endIndex t)) as [Hdrained|Hleft].
  2:{ injection Hres as <-. left. auto. }
  right. destruct (Z.eqb_spec (bytesAvailable (source t)) 0) as [Hnone|Hmore];
    cbn [negb] in Hres.
  - destruct (atEnd (source t)) eqn:Hend; injection Hres as <-.
    + right. left. auto.
    + right. right. auto.
  - injection Hres as <-. left. auto.
Qed.

(** Every way in which [readFromInput] returns. *)
Lemma readFromInput_effects (t t' : transfer) :
  readFromInput t = Ok t' ->
  (t' = t /\ beginIndex t <> endIndex t)
  \/ (beginIndex t = endIndex t /\
      exists chunk source',
        read BUFFERSIZE (source t) = (chunk, source') /\
        match chunk with
        | None => t' = readFailed source' t
        | Some bs =>
            (length bs = 0%nat
             /\ t' = set_endIndex 0
                       (set_buffer (storeAtStart bs (buffer t))
                          (set_source source' (set_beginIndex 0 t))))
            \/ (length bs <> 0%nat
                /\ writeToOutput (loaded BUFFERSIZE bs source' t) = Ok t')
        end).
Proof.
  unfold Chunked.readFromInput, isBufferEmpty, Q_ASSERT, bind.
  destruct (QT_DEBUG && negb (beginIndex t <=? endIndex t)); [discriminate|].
  destruct (Z.eqb_spec (beginIndex t) (endIndex t)) as [Hempty|Hsome]; cbn [negb].
  2:{ intros [= <-]. left. auto. }
  cbn [set_beginIndex source].
  destruct (read BUFFERSIZE (source t)) as [[bs|] source'] eqn:Hread.
  - cbn [set_endIndex set_buffer set_source endIndex buffer].
    intros Hres. right. split; [exact Hempty|]. exists (Some bs), source'.
    split; [reflexivity|].
    destruct (Z.eqb_spec (Z.of_nat (length bs)) 0) as [Hzero|Hpos]; cbn [negb] in Hres.
    + left. split; [lia|]. injection Hres as <-.
      replace (Z.of_nat (length bs)) with 0 by lia. reflexivity.
    + right. split; [lia|]. exact Hres.
  - intros [= <-]. right. split; [exact Hempty|]. exists None, source'.
    split; reflexivity.
Qed.

(** [writeToOutput] leaves the source, the buffer and [endIndex] alone. *)
Lemma writeToOutput_keeps (t t' : transfer) :
  writeToOutput t = Ok t' ->
  source t' = source t /\ buffer t' = buffer t /\ endIndex t' = endIndex t
  /\ destroyed t' = destroyed t.
Proof.
  intros Hw.
  destruct (writeToOutput_effects t t' Hw)
    as [[-> _]|(_ & _ & data & k & s & _ & _ &
                [[_ ->]|[(_ & _ & ->)|[(_ & _ & _ & ->)|[(_ & _ & _ & _ & ->)
                                                        |(_ & _ & _ & _ & ->)]]]])];
    repeat split; reflexivity.
Qed.

(** X4.  While the window holds bytes that were not sent, no event makes
    the transfer read: the source is not touched, and neither are the buffer
    and [endIndex], so the unsent bytes are never overwritten. *)
Theorem unsent_bytes_are_kept (e : event) (t t' : transfer) :
  fire e t = Ok t' -> beginIndex t <> endIndex t ->
  source t' = source t /\ buffer t' = buffer t /\ endIndex t' = endIndex t.
Proof.
  unfold Chunked.fire. intros Hfire Hsome.
  destruct (destroyed t); [injection Hfire as <-; auto|].
  destruct e.
  - apply writeToOutput_keeps in Hfire. cbn in Hfire. tauto.
  - destruct (readTimers t) as [|n]; [injection Hfire as <-; auto|].
    destruct (readFromInput_effects _ _ Hfire) as [[-> _]|[Hempty _]]; [cbn; auto|].
    cbn in Hempty. contradiction.
  - destruct (sourceDeleteLater t); injection Hfire as <-; auto.
Qed.




(** *** What the sink is asked for *)

Lemma writeToOutput_bounded (t t' : transfer) :
  bounded BUFFERSIZE t -> writeToOutput t = Ok t' -> bounded BUFFERSIZE t'.
Proof.
  intros (Hb & He & Hcalls) Hw.
  destruct (writeToOutput_effects t t' Hw)
    as [[-> _]|(_ & _ & data & k & s & Hdata & _ & Hcase)]; [repeat split; tauto|].
  apply bytesAt_length in Hdata as [_ Hlen].
  assert (Hcall : Forall (withinBuffer BUFFERSIZE)
                    (issued t ++ [mkSinkWrite (beginIndex t) (endIndex t) data k])).
  { apply Forall_app. split; [exact Hcalls|].
    constructor; [|constructor]. unfold withinBuffer. cbn. lia. }
  destruct Hcase as [[_ ->]|[(Hk & _ & ->)|[(Hk & _ & _ & ->)|[(Hk & _ & _ & _ & ->)
                                                          |(Hk & _ & _ & _ & ->)]]]];
    unfold bounded; cbn; (split; [lia|split; [lia|exact Hcall]]).
Qed.

Lemma readFromInput_bounded `{!ReadContract Src} (t t' : transfer) :
  0 <= BUFFERSIZE ->
  Forall (withinBuffer BUFFERSIZE) (issued t) ->
  beginIndex t = endIndex t \/ bounded BUFFERSIZE t ->
  readFromInput t = Ok t' -> bounded BUFFERSIZE t'.
Proof.
  intros Hcap Hcalls Hpre Hr.
  destruct (readFromInput_effects t t' Hr) as [[-> Hsome]|(_ & chunk & s & Hread & Hc)].
  { destruct Hpre; [contradiction|assumption]. }
  destruct chunk as [bs|].
  - apply read_at_most in Hread; [|exact Hcap].
    destruct Hc as [[Hzero ->]|[_ Hw]].
    + unfold bounded. cbn. split; [lia|split; [lia|exact Hcalls]].
    + apply (writeToOutput_bounded (loaded BUFFERSIZE bs s t)); [|exact Hw].
      unfold bounded. cbn. split; [lia|split; [lia|exact Hcalls]].
  - subst t'. unfold bounded. cbn. split; [lia|split; [lia|exact Hcalls]].
Qed.

(** X3.  For a source that returns at most what it is asked for and any
    sink, also one that takes its writes in part: in every state the events
    reach, the indices are not negative, [endIndex] is at most the buffer
    size, and every call made on the sink asked for at most one buffer of
    bytes, at an offset that is not negative. *)
Theorem writes_ask_at_most_one_buffer `{!ReadContract Src}
  (raw : list byte) (input : Src) (output : Snk) (es : list event) (t0 t : transfer) :
  0 <= BUFFERSIZE ->
  construct QT_DEBUG BUFFERSIZE raw input output = Ok t0 ->
  run es t0 = Ok t ->
  0 <= beginIndex t /\ 0 <= endIndex t <= BUFFERSIZE
  /\ Forall (fun c => 0 <= sw_offset c /\ 0 <= sw_maxSize c <= BUFFERSIZE
                      /\ Z.of_nat (length (sw_data c)) = sw_maxSize c)
       (issued t).
Proof.
  intros Hcap Hc Hrun.
  assert (H0b : bounded BUFFERSIZE t0).
  { unfold construct, Q_ASSERT, bind in Hc.
    destruct (QT_DEBUG && negb (negb (atEnd input))); [discriminate|].
    apply (readFromInput_bounded _ _ Hcap) in Hc; [exact Hc|constructor|now left]. }
  clear Hc. revert t0 H0b Hrun.
  induction es as [|e es IH]; intros t0 H0b; cbn [Chunked.run].
  { intros [= <-]. exact H0b. }
  destruct (fire e t0) as [t1|] eqn:Hfire; cbn [bind]; [|discriminate].
  apply IH. unfold Chunked.fire in Hfire.
  destruct (destroyed t0); [injection Hfire as <-; exact H0b|].
  destruct e.
  - apply (writeToOutput_bounded (set_writeReady true t0)); [exact H0b|exact Hfire].
  - destruct (readTimers t0) as [|n]; [injection Hfire as <-; exact H0b|].
    apply (readFromInput_bounded (set_readTimers n t0) _ Hcap); [apply H0b|now right|exact Hfire].
  - destruct (sourceDeleteLater t0); injection Hfire as <-; exact H0b.
Qed.

(** *** No assertion fails and no access leaves the buffer *)

Lemma bytesAt_inside (buf : list byte) (off len : Z) :
  0 <= off -> 0 <= len -> off + len <= Z.of_nat (length buf) ->
  exists data, bytesAt buf off len = Ok data.
Proof.
  intros Hoff Hlen Hfit. unfold bytesAt.
  apply Z.leb_le in Hoff, Hlen, Hfit. rewrite Hoff, Hlen, Hfit. eauto.
Qed.

Lemma writeToOutput_sound `{!WholeWrites Snk} (t : transfer) :
  sound BUFFERSIZE t ->
  exists t', writeToOutput t = Ok t' /\ sound BUFFERSIZE t'.
Proof.
  intros [Hs Hbuf].
  assert (Hreturns : exists t', writeToOutput t = Ok t').
  { destruct Hs as (Hlo & Hhi & Hwin).
    unfold Chunked.writeToOutput.
    rewrite isBufferEmpty_ordered by lia. cbn [bind].
    destruct (Z.eqb_spec (beginIndex t) (endIndex t)) as [Hempty|Hsome]; cbn [orb];
      [eauto|].
    destruct (writeReady t); cbn [negb]; [|eauto].
    destruct (bytesAt_inside (buffer t) (beginIndex t) (endIndex t)) as [data Hdata];
      [lia|lia|specialize (Hbuf Hsome); lia|].
    rewrite Hdata. cbn [bind].
    apply bytesAt_length in Hdata as [_ Hlen].
    destruct (write data (sink t)) as [k sink'] eqn:Hwrite.
    apply write_whole in Hwrite.
    destruct (k <? 0) eqn:Hk; [eauto|]. apply Z.ltb_ge in Hk.
    rewrite isBufferEmpty_ordered by (cbn; lia). cbn [bind].
    destruct (_ =? _); [|eauto].
    destruct (negb _); [eauto|]. destruct (atEnd _); eauto. }
  destruct Hreturns as [t' Hw]. exists t'. split; [exact Hw|]. split.
  - apply (writeToOutput_settled QT_DEBUG BUFFERSIZE t t' Hs Hw).
  - destruct (writeToOutput_keeps t t' Hw) as (_ & -> & -> & _).
    intros Hsome. apply Hbuf. intros Hempty. apply Hsome.
    destruct (writeToOutput_effects t t' Hw) as [[-> _]|(_ & Hne & _)];
      [exact Hempty|contradiction].
Qed.

Lemma readFromInput_sound `{!ReadContract Src} `{!WholeWrites Snk} (t : transfer) :
  0 <= BUFFERSIZE ->
  beginIndex t = endIndex t \/ sound BUFFERSIZE t ->
  exists t', readFromInput t = Ok t' /\ sound BUFFERSIZE t'.
Proof.
  intros Hcap Hpre.
  assert (Hfresh : forall u : transfer,
             beginIndex u = 0 -> endIndex u = 0 -> sound BUFFERSIZE u).
  { intros u Hb He. split; [unfold settled; lia|]. intros Hne. lia. }
  destruct (Z.eq_dec (beginIndex t) (endIndex t)) as [Hempty|Hsome].
  - destruct (read BUFFERSIZE (source t)) as [[bs|] source'] eqn:Hread.
    + destruct (Nat.eq_dec (length bs) 0) as [Hzero|Hbs].
      * unfold Chunked.readFromInput.
        rewrite isBufferEmpty_ordered by lia. cbn [bind].
        apply Z.eqb_eq in Hempty. rewrite Hempty. cbn [negb set_beginIndex source].
        rewrite Hread. cbn [set_endIndex set_buffer set_source endIndex].
        rewrite Hzero. cbn [Z.of_nat Z.eqb negb].
        eexists. split; [reflexivity|]. apply Hfresh; reflexivity.
      * rewrite (readFromInput_loads QT_DEBUG BUFFERSIZE t bs source' Hempty Hread Hbs).
        apply writeToOutput_sound.
        apply read_at_most in Hread; [|exact Hcap].
        split; [unfold settled; cbn; lia|]. intros _. cbn.
        unfold zeroFrom, storeAtStart.
        rewrite Nat2Z.id, take_app_length, length_app. lia.
    + unfold Chunked.readFromInput.
      rewrite isBufferEmpty_ordered by lia. cbn [bind].
      apply Z.eqb_eq in Hempty. rewrite Hempty. cbn [negb set_beginIndex source].
      rewrite Hread. eexists. split; [reflexivity|]. apply Hfresh; reflexivity.
  - destruct Hpre as [Habs|Hs]; [contradiction|].
    exists t. split; [|exact Hs]. unfold Chunked.readFromInput.
    destruct Hs as [(Hlo & Hhi & Hwin) _].
    rewrite isBufferEmpty_ordered by lia. cbn [bind].
    apply Z.eqb_neq in Hsome. rewrite Hsome. reflexivity.
Qed.

(** X2.  For a source that returns at most what it is asked for and a sink
    that takes each write whole or not at all: the constructor returns on
    any source that is not at its end, and whatever events follow, no
    assertion of the transfer fails and no write is handed bytes from
    outside the buffer. *)
Theorem transfer_never_aborts `{!ReadContract Src} `{!WholeWrites Snk}
  (raw : list byte) (input : Src) (output : Snk) (es : list event) :
  0 <= BUFFERSIZE -> atEnd input = false ->
  exists t0 t,
    construct QT_DEBUG BUFFERSIZE raw input output = Ok t0
    /\ run es t0 = Ok t.
Proof.
  intros Hcap Hend.
  destruct (readFromInput_sound (members raw input output) Hcap) as (t0 & Hc & Hs0);
    [now left|].
  exists t0.
  assert (Hrun : forall es' u, sound BUFFERSIZE u -> exists t, run es' u = Ok t).
  { intros es'. induction es' as [|e es' IH]; intros u Hs; cbn [Chunked.run];
      [eauto|].
    assert (Hstep : exists u1, fire e u = Ok u1 /\ sound BUFFERSIZE u1).
    { unfold Chunked.fire. destruct (destroyed u); [eauto|]. destruct e.
      - apply writeToOutput_sound. exact Hs.
      - destruct (readTimers u); [eauto|].
        apply readFromInput_sound; [assumption|now right].
      - destruct (sourceDeleteLater u); eauto. }
    destruct Hstep as (u1 & -> & Hs1). cbn [bind]. now apply IH. }
  destruct (Hrun es t0 Hs0) as [t Ht]. exists t. split; [|exact Ht].
  unfold construct, Q_ASSERT. rewrite Hend. cbn [negb]. rewrite andb_false_r.
  exact Hc.
Qed.

(** *** Errors of the devices *)



(** X7.  A write that the sink answers with an error is logged, counts no
    byte as delivered, and keeps the window; at the next [bytesWritten] the
    same bytes are offered again, at the same offset. *)
Theorem failed_write_is_offered_again (t : transfer) (data : list byte)
  (k k' : Z) (sink' sink'' : Snk) :
  writeReady t = true -> destroyed t = false -> beginIndex t < endIndex t ->
  bytesAt (buffer t) (beginIndex t) (endIndex t) = Ok data ->
  write data (sink t) = (k, sink') -> k < 0 ->
  write data sink' = (k', sink'') -> k' < 0 \/ beginIndex t + k' <= endIndex t ->
  writeToOutput t = Ok (writeFailed data k sink' t)
  /\ delivered (issued (writeFailed data k sink' t)) = delivered (issued t)
  /\ beginIndex (writeFailed data k sink' t) = beginIndex t
  /\ endIndex (writeFailed data k sink' t) = endIndex t
  /\ exists t',
       fire BytesWritten (writeFailed data k sink' t) = Ok t'
       /\ wrote (writeFailed data k sink' t) t'
            (mkSinkWrite (beginIndex t) (endIndex t) data k').
Proof.
  intros Hready Hdead Hwin Hdata Hwrite Hk Hwrite' Hk'.
  assert (Hsome : (beginIndex t =? endIndex t) = false) by (apply Z.eqb_neq; lia).
  assert (Hneg : (k <? 0) = true) by (apply Z.ltb_lt; lia).
  split; [|split; [|split; [reflexivity|split; [reflexivity|]]]].
  - unfold Chunked.writeToOutput. rewrite isBufferEmpty_ordered by lia. cbn [bind].
    rewrite Hsome, Hready, Hdata. cbn [orb negb bind]. rewrite Hwrite, Hneg. reflexivity.
  - cbn. unfold delivered. rewrite map_app, concat_app. cbn [map concat].
    unfold accepted at 2. cbn [sw_written]. rewrite Hneg. now rewrite !app_nil_r.
  - unfold Chunked.fire. cbn [writeFailed warn set_writeReady record_write set_sink destroyed].
    rewrite Hdead. unfold Chunked.writeToOutput.
    rewrite isBufferEmpty_ordered by (cbn; lia).
    cbn [bind beginIndex endIndex writeReady buffer sink
         writeFailed warn set_writeReady record_write set_sink].
    rewrite Hsome, Hdata. cbn [orb negb bind]. rewrite Hwrite'.
    destruct (k' <? 0) eqn:Hk2.
    + eexists. split; [reflexivity|]. unfold wrote. reflexivity.
    + apply Z.ltb_ge in Hk2. destruct Hk' as [Habs|Hfit]; [lia|].
      rewrite isBufferEmpty_ordered by (cbn; lia).
      cbn [bind beginIndex endIndex set_beginIndex set_writeReady record_write
           set_sink source readTimers writeFailed warn].
      destruct (beginIndex t + k' =? endIndex t);
        [destruct (negb _); [|destruct (atEnd _)]|];
        eexists; (split; [reflexivity|unfold wrote; reflexivity]).
Qed.

(** X8.  With a sink that takes each write whole or not at all: when the
    sink's [bytesWritten] arrives in a state that the events reach and the
    transfer answers with a write, the write asks for exactly the bytes of
    the window, [endIndex - beginIndex] bytes at [beginIndex]. *)
Theorem whole_sink_writes_the_window `{!ReadContract Src} `{!WholeWrites Snk}
  (raw : list byte) (input : Src) (output : Snk) (es : list event)
  (t0 t t' : transfer) (c : SinkWrite) :
  0 <= BUFFERSIZE ->
  construct QT_DEBUG BUFFERSIZE raw input output = Ok t0 ->
  run es t0 = Ok t ->
  fire BytesWritten t = Ok t' -> wrote t t' c ->
  sw_offset c = beginIndex t /\ sw_maxSize c = endIndex t - beginIndex t
  /\ Z.of_nat (length (sw_data c)) = endIndex t - beginIndex t.
Proof.
  intros Hcap Hc Hrun Hfire Hc'.
  assert (Hs : settled BUFFERSIZE t).
  { apply (run_settled QT_DEBUG BUFFERSIZE Hcap es t0 t); [|exact Hrun].
    apply (construct_settled QT_DEBUG BUFFERSIZE Hcap raw input output t0 Hc). }
  unfold wrote in Hc'. unfold Chunked.fire in Hfire.
  destruct (destroyed t).
  { injection Hfire as <-. apply (f_equal (@length _)) in Hc'.
    rewrite length_app in Hc'. cbn in Hc'. lia. }
  destruct (settled_write_is_window QT_DEBUG BUFFERSIZE (set_writeReady true t) t' c
              Hs Hfire Hc') as [Hoff Hmax].
  cbn in Hoff, Hmax. split; [exact Hoff|]. split; [exact Hmax|].
  destruct (writeToOutput_effects _ t' Hfire)
    as [[-> _]|(_ & _ & data & k & s & Hdata & _ & Hcase)].
  { apply (f_equal (@length _)) in Hc'. rewrite length_app in Hc'. cbn in Hc'. lia. }
  apply bytesAt_length in Hdata as [_ Hlen]. cbn in Hlen.
  assert (Hi : issued t' = issued t ++ [mkSinkWrite (beginIndex t) (endIndex t) data k]).
  { destruct Hcase as [[_ ->]|[(_ & _ & ->)|[(_ & _ & _ & ->)|[(_ & _ & _ & _ & ->)
                                                            |(_ & _ & _ & _ & ->)]]]];
      reflexivity. }
  rewrite Hc' in Hi. apply app_inj_tail in Hi as [_ ->]. cbn in *. lia.
Qed.

End PumpFacts.

(** *** Concrete runs *)

Section PumpRuns.

Import Chunked Props Pump Devices.

Lemma transfer_never_aborts_witness :
  0 <= 4 /\ atEnd (openFile digits) = false
  /\ exists t0 t,
       construct true 4 (block 4) (openFile digits) openSocket = Ok t0
       /\ run true 4 [ReadTimer; BytesWritten; BytesWritten; DeferredDelete] t0 = Ok t.
Proof.
  split; [lia|]. split; [reflexivity|].
  apply (transfer_never_aborts true 4 (block 4) (openFile digits) openSocket
           [ReadTimer; BytesWritten; BytesWritten; DeferredDelete]);
    [lia|reflexivity].
Defined.

Lemma writes_ask_at_most_one_buffer_witness :
  exists t0 t,
    0 <= 8
    /\ construct false 8 (block 8) (openFile abcd) slowSink = Ok t0
    /\ run false 8 [BytesWritten] t0 = Ok t
    /\ (0 <= beginIndex t /\ 0 <= endIndex t <= 8
        /\ Forall (fun c => 0 <= sw_offset c /\ 0 <= sw_maxSize c <= 8
                            /\ Z.of_nat (length (sw_data c)) = sw_maxSize c)
             (issued t)).
Proof.
  eexists _, _. split; [lia|].
  split; [vm_compute; reflexivity|]. split; [vm_compute; reflexivity|].
  eapply (writes_ask_at_most_one_buffer false 8 (block 8) (openFile abcd) slowSink
            [BytesWritten]); [lia|vm_compute; reflexivity|vm_compute; reflexivity].
Defined.

Lemma unsent_bytes_are_kept_witness :
  exists t t',
    construct false 8 (block 8) (openFile abcd) slowSink = Ok t
    /\ fire false 8 ReadTimer t = Ok t'
    /\ beginIndex t <> endIndex t
    /\ (source t' = source t /\ buffer t' = buffer t /\ endIndex t' = endIndex t).
Proof.
  eexists _, _. split; [vm_compute; reflexivity|].
  split; [vm_compute; reflexivity|]. split; [vm_compute; discriminate|].
  apply (unsent_bytes_are_kept false 8 ReadTimer);
    [vm_compute; reflexivity|vm_compute; discriminate].
Defined.



Lemma failed_write_is_offered_again_witness :
  writeReady refusedBySink = true /\ destroyed refusedBySink = false
  /\ beginIndex refusedBySink < endIndex refusedBySink
  /\ bytesAt (buffer refusedBySink) (beginIndex refusedBySink) (endIndex refusedBySink)
     = Ok abcd
  /\ write abcd (sink refusedBySink) = (-1, closedSocket)
  /\ -1 < 0
  /\ write abcd closedSocket = (-1, closedSocket)
  /\ (-1 < 0 \/ beginIndex refusedBySink + -1 <= endIndex refusedBySink)
  /\ (writeToOutput true refusedBySink = Ok (writeFailed abcd (-1) closedSocket refusedBySink)
      /\ delivered (issued (writeFailed abcd (-1) closedSocket refusedBySink))
         = delivered (issued refusedBySink)
      /\ beginIndex (writeFailed abcd (-1) closedSocket refusedBySink)
         = beginIndex refusedBySink
      /\ endIndex (writeFailed abcd (-1) closedSocket refusedBySink)
         = endIndex refusedBySink
      /\ exists t',
           fire true 8 BytesWritten (writeFailed abcd (-1) closedSocket refusedBySink)
           = Ok t'
           /\ wrote (writeFailed abcd (-1) closedSocket refusedBySink) t'
                (mkSinkWrite (beginIndex refusedBySink) (endIndex refusedBySink)
                   abcd (-1))).
Proof.
  split; [reflexivity|]. split; [reflexivity|]. split; [cbn; lia|].
  split; [reflexivity|]. split; [reflexivity|]. split; [lia|].
  split; [reflexivity|]. split; [left; lia|].
  apply (failed_write_is_offered_again true 8 refusedBySink abcd (-1) (-1)
           closedSocket closedSocket);
    try reflexivity; try (cbn; lia).
Defined.

Lemma whole_sink_writes_the_window_witness :
  exists t0 t t' c,
    0 <= 4
    /\ construct true 4 (block 4) (openFile digits) openSocket = Ok t0
    /\ run true 4 [ReadTimer] t0 = Ok t
    /\ fire true 4 BytesWritten t = Ok t'
    /\ wrote t t' c
    /\ (sw_offset c = beginIndex t /\ sw_maxSize c = endIndex t - beginIndex t
        /\ Z.of_nat (length (sw_data c)) = endIndex t - beginIndex t).
Proof.
  eexists _, _, _, _. split; [lia|].
  split; [vm_compute; reflexivity|]. split; [vm_compute; reflexivity|].
  split; [vm_compute; reflexivity|]. split; [vm_compute; reflexivity|].
  eapply (whole_sink_writes_the_window true 4 (block 4) (openFile digits) openSocket
            [ReadTimer]);
    [lia|vm_compute; reflexivity|vm_compute; reflexivity
     |vm_compute; reflexivity|vm_compute; reflexivity].
Defined.

End PumpRuns.

(** * More on the responder *)

Section ResponseFacts.

Import Responder Props Devices.

Variable QT_DEBUG : bool.
Variable statusString : gmap Z QByteArray.

Local Abbreviation write_bytes := (write_bytes QT_DEBUG statusString).
Local Abbreviation write_status := (write_status QT_DEBUG statusString).

(** [statusString.at] throws for a status that the table does not hold,
    after the assertion on the socket. *)
Lemma write_bytes_unknown (data mimeType : QByteArray) (status : StatusCode)
  (d : QHttpServerResponderPrivate) :
  statusString !! status = None ->
  write_bytes data mimeType status d
  = (check Q_ASSERT QT_DEBUG (sock_open (socket d)); Crash OutOfRange).
Proof.
  intros Hnone. unfold Responder.write_bytes, Responder.writeStatusLine, statusString_at.
  rewrite Hnone. destruct (Q_ASSERT _ _); reflexivity.
Qed.

(** A buffered write that returns has left the socket as open or closed as
    it was, and has only added to its queue; nothing when it is closed. *)
Lemma write_bytes_appends (data mimeType : QByteArray) (status : StatusCode)
  (d d' : QHttpServerResponderPrivate) :
  write_bytes data mimeType status d = Ok d' ->
  sock_open (socket d') = sock_open (socket d)
  /\ exists tail,
       sock_queue (socket d') = sock_queue (socket d) ++ tail
       /\ (sock_open (socket d) = false -> tail = []).
Proof.
  destruct (statusString !! status) as [reason|] eqn:Hreason.
  2:{ rewrite write_bytes_unknown by exact Hreason.
      destruct (Q_ASSERT _ _); discriminate. }
  destruct (sock_open (socket d)) eqn:Hopen.
  - rewrite (write_bytes_open QT_DEBUG statusString data mimeType status reason d Hopen Hreason).
    intros [= <-]. cbn [socket sock_open sock_queue]. split; [reflexivity|].
    eexists. split; [reflexivity|discriminate].
  - intros Hres. assert (Hdbg : QT_DEBUG = false).
    { destruct QT_DEBUG eqn:Hd; [|reflexivity].
      rewrite (write_bytes_closed_debug statusString data mimeType status d Hopen) in Hres.
      discriminate. }
    revert Hres. rewrite Hdbg.
    rewrite (write_bytes_closed_release statusString data mimeType status reason d
               Hopen Hreason).
    intros [= <-]. cbn [socket]. rewrite Hopen. split; [reflexivity|].
    exists []. split; [now rewrite app_nil_r|reflexivity].
Qed.

Section Streams.

Context {D : Type} `{QIODeviceIn D}.

Local Abbreviation stream := (stream QT_DEBUG statusString).
Local Abbreviation write_device := (write_device QT_DEBUG statusString).

(** The streaming write past its checks, on an open socket and for a status
    the table holds: the head of the response is queued, and a transfer is
    constructed on the socket unless the source is at its end. *)
Lemma stream_head (raw : list byte) (input : D) (mimeType : QByteArray)
  (status : StatusCode) (reason : QByteArray) (d : QHttpServerResponderPrivate) :
  sock_open (socket d) = true -> statusString !! status = Some reason ->
  stream raw input mimeType status d
  = if atEnd input
    then Ok (mkResponder
               (mkSocket true
                  (sock_queue (socket d) ++ statusLine status reason
                     ++ headerLines (headers d ++ streamHeaders input mimeType)
                     ++ CRLF))
               (headers d ++ streamHeaders input mimeType)
               (messages d ++ [qDebug "No more data available."]), None)
    else
      do t <- Chunked.construct QT_DEBUG DEFAULT_BUFFERSIZE raw input
                (mkSocket true
                   (sock_queue (socket d) ++ statusLine status reason
                      ++ headerLines (headers d ++ streamHeaders input mimeType)
                      ++ CRLF));
      Ok (mkResponder (Chunked.sink t) (headers d ++ streamHeaders input mimeType)
            (messages d), Some t).
Proof.
  intros Hopen Hreason. unfold Responder.stream.
  rewrite Hopen. cbn [negb].
  rewrite (writeStatusLine_open QT_DEBUG statusString status reason d Hopen Hreason).
  cbn [bind].
  set (d1 := addHeader contentTypeString mimeType _).
  assert (Hd1 : d1 = mkResponder
                       (mkSocket true (sock_queue (socket d) ++ statusLine status reason))
                       (headers d ++ streamHeaders input mimeType) (messages d)).
  { subst d1. unfold streamHeaders, addHeader.
    destruct (isSequential input); cbn [negb socket headers messages];
      rewrite <- ?app_assoc; reflexivity. }
  rewrite Hd1. rewrite writeHeaders_open by reflexivity.
  unfold put, socket_write. cbn [socket sock_open sock_queue headers messages snd].
  rewrite <- !app_assoc. destruct (atEnd input); reflexivity.
Qed.

(** X9.  A status that the table of reason phrases does not hold makes
    every write on an open socket stop at [statusString.at], which throws:
    the buffered write, the status-only write, the streaming write of a
    readable source, and the substituted 500 of a refused source when it is
    500 that the table lacks. *)
Theorem unknown_status_throws (raw : list byte) (input : D)
  (data mimeType : QByteArray) (status : StatusCode) (d : QHttpServerResponderPrivate) :
  sock_open (socket d) = true -> statusString !! status = None ->
  write_bytes data mimeType status d = Crash OutOfRange
  /\ write_status status d = Crash OutOfRange
  /\ (readable input = true ->
      write_device raw input mimeType status d = Crash OutOfRange)
  /\ (readable input = false -> status = InternalServerError ->
      forall asked, write_device raw input mimeType asked d = Crash OutOfRange).
Proof.
  intros Hopen Hnone.
  assert (Hassert : forall d0, sock_open (socket d0) = true ->
                      Q_ASSERT QT_DEBUG (sock_open (socket d0)) = Ok tt).
  { intros d0 ->. unfold Q_ASSERT. now rewrite andb_false_r. }
  split; [|split; [|split]].
  - rewrite write_bytes_unknown, Hassert by assumption. reflexivity.
  - unfold Responder.write_status.
    rewrite write_bytes_unknown, Hassert by assumption. reflexivity.
  - intros Hreadable. rewrite write_device_readable by exact Hreadable.
    unfold Responder.stream, Responder.writeStatusLine, statusString_at, Q_ASSERT.
    rewrite Hopen, Hnone, andb_false_r. reflexivity.
  - intros Hrefused -> asked. rewrite write_device_refused by exact Hrefused.
    unfold Responder.write_status.
    rewrite write_bytes_unknown, Hassert by assumption. reflexivity.
Qed.

(** X10.  On an open socket, with the reason phrases of the status and of
    500 in the table, the streaming write returns, and it creates a
    transfer exactly when its source is, or can be, opened for reading and
    is not at its end; the responder's socket is then the transfer's sink. *)
Theorem transfer_iff_source_has_data (raw : list byte) (input : D)
  (mimeType : QByteArray) (status : StatusCode) (reason reason500 : QByteArray)
  (d : QHttpServerResponderPrivate) :
  sock_open (socket d) = true -> statusString !! status = Some reason ->
  statusString !! InternalServerError = Some reason500 ->
  exists d' tr,
    write_device raw input mimeType status d = Ok (d', tr)
    /\ (is_Some tr <-> readable input = true /\ atEnd (opened input) = false)
    /\ (forall t, tr = Some t ->
        Chunked.sink t = socket d' /\ sock_open (socket d') = true).
Proof.
  intros Hopen Hreason H500.
  destruct (readable input) eqn:Hreadable.
  - rewrite write_device_readable by exact Hreadable.
    rewrite (stream_head raw (opened input) mimeType status reason d Hopen Hreason).
    destruct (atEnd (opened input)) eqn:Hend.
    + eexists _, None. split; [reflexivity|]. split.
      * split; [intros [t Ht]; discriminate|intros [_ Habs]; discriminate].
      * discriminate.
    + destruct (construct_on_socket QT_DEBUG raw (opened input)
                  (mkSocket true
                     (sock_queue (socket d) ++ statusLine status reason
                        ++ headerLines (headers d ++ streamHeaders (opened input) mimeType)
                        ++ CRLF))
                  eq_refl Hend)
        as (t & tail & -> & Hsink).
      cbn [bind]. eexists _, (Some t). split; [reflexivity|]. split.
      * split; [auto|intros _; now exists t].
      * intros t' [= <-]. cbn [socket]. split; [reflexivity|]. now rewrite Hsink.
  - rewrite write_device_refused by exact Hreadable.
    unfold Responder.write_status.
    rewrite (write_bytes_open QT_DEBUG statusString [] _ InternalServerError reason500
               (say (refusal input) d)) by assumption.
    cbn [bind]. eexists _, None. split; [reflexivity|]. split.
    + split; [intros [t Ht]; discriminate|intros [Habs _]; discriminate].
    + discriminate.
Qed.

(** X11.  A write that returns has neither closed nor opened the socket and
    has only added to what the socket had queued; on a socket that is not
    open it has queued nothing and created no transfer, whatever the source
    and the build. *)
Theorem writes_only_append (raw : list byte) (input : D)
  (data mimeType : QByteArray) (status : StatusCode)
  (d d' : QHttpServerResponderPrivate)
  (tr : option (Chunked.IOChunkedTransfer (Src:=D) (Snk:=QTcpSocket))) :
  write_bytes data mimeType status d = Ok d'
  \/ write_device raw input mimeType status d = Ok (d', tr) ->
  sock_open (socket d') = sock_open (socket d)
  /\ exists tail,
       sock_queue (socket d') = sock_queue (socket d) ++ tail
       /\ (sock_open (socket d) = false ->
           tail = []
           /\ (write_device raw input mimeType status d = Ok (d', tr) -> tr = None)).
Proof.
  intros [Hbytes|Hdevice].
  { destruct (write_bytes_appends _ _ _ _ _ Hbytes) as (Hsame & tail & Hq & Hnil).
    split; [exact Hsame|]. exists tail. split; [exact Hq|].
    intros Hclosed. split; [now apply Hnil|].
    intros Hdevice. revert Hdevice.
    destruct (readable input) eqn:Hreadable.
    - rewrite write_device_readable by exact Hreadable.
      unfold Responder.stream. rewrite Hclosed. now intros [= _ <-].
    - rewrite write_device_refused by exact Hreadable.
      destruct (Responder.write_status _ _ _ _) as [d1|]; cbn [bind];
        [now intros [= _ <-]|discriminate]. }
  revert Hdevice. destruct (readable input) eqn:Hreadable.
  - rewrite write_device_readable by exact Hreadable.
    destruct (sock_open (socket d)) eqn:Hopen.
    + destruct (statusString !! status) as [reason|] eqn:Hreason.
      * destruct (stream_open QT_DEBUG statusString raw (opened input) mimeType status
                    reason d Hopen Hreason) as (tr' & tail & ms & -> & _).
        intros [= <- <-]. cbn [socket sock_open sock_queue]. split; [reflexivity|].
        eexists. split; [reflexivity|discriminate].
      * unfold Responder.stream, Responder.writeStatusLine, statusString_at, Q_ASSERT.
        rewrite Hopen, Hreason, andb_false_r. discriminate.
    + unfold Responder.stream. rewrite Hopen. cbn [negb].
      intros [= <- <-]. cbn [say socket]. split; [exact Hopen|].
      exists []. rewrite app_nil_r. auto.
  - rewrite write_device_refused by exact Hreadable.
    destruct (Responder.write_status _ _ _ _) as [d1|] eqn:Hstatus; cbn [bind];
      [|discriminate].
    intros [= <- <-].
    destruct (write_bytes_appends _ _ _ _ _ Hstatus) as (Hsame & tail & Hq & Hnil).
    cbn [say socket] in Hsame, Hq, Hnil. split; [exact Hsame|].
    exists tail. split; [exact Hq|]. intros Hclosed. split; [now apply Hnil|reflexivity].
Qed.

End Streams.

(** X1.  Streaming a non-empty file to an open socket, end to end: the
    write queues the head of the response, with a [Content-Length] that is
    the size of the file, and creates a transfer; after enough turns of the
    event loop the socket has queued, behind what it held, exactly the head
    followed by the content of the file, and the file is released. *)
Theorem streamed_file_response (raw data : list byte) (mimeType : QByteArray)
  (status : StatusCode) (reason : QByteArray) (d : QHttpServerResponderPrivate) :
  sock_open (socket d) = true -> statusString !! status = Some reason ->
  data <> [] ->
  exists d' t0 n t,
    Responder.write_device QT_DEBUG statusString raw (openFile data) mimeType status d
    = Ok (d', Some t0)
    /\ Chunked.run QT_DEBUG DEFAULT_BUFFERSIZE (rounds n) t0 = Ok t
    /\ Chunked.sink t
       = mkSocket true
           (sock_queue (socket d) ++ statusLine status reason
              ++ headerLines
                   (headers d
                      ++ [(contentLengthString, number (Z.of_nat (length data)));
                          (contentTypeString, mimeType)])
              ++ CRLF ++ data)
    /\ Chunked.delivered (Chunked.issued t) = data
    /\ Chunked.sourceDeleteLater t = true.
Proof.
  intros Hopen Hreason Hdata.
  rewrite write_device_readable by reflexivity.
  change (opened (openFile data)) with (openFile data).
  rewrite (stream_head raw (openFile data) mimeType status reason d Hopen Hreason).
  assert (Hlen : 0 < Z.of_nat (length data)) by (destruct data; [contradiction|cbn; lia]).
  change (atEnd (openFile data)) with (Z.max 0 (Z.of_nat (length data) - 0) =? 0).
  replace (Z.max 0 (Z.of_nat (length data) - 0) =? 0) with false
    by (symmetry; apply Z.eqb_neq; lia).
  change (streamHeaders (openFile data) mimeType)
    with [(contentLengthString, number (Z.of_nat (length data)));
          (contentTypeString, mimeType)].
  destruct (file_reaches_socket QT_DEBUG DEFAULT_BUFFERSIZE ltac:(reflexivity) data
              (sock_queue (socket d) ++ statusLine status reason
                 ++ headerLines
                      (headers d
                         ++ [(contentLengthString, number (Z.of_nat (length data)));
                             (contentTypeString, mimeType)])
                 ++ CRLF)
              raw Hdata)
    as (n & t & Hrun & Hsink & Hdelivered & _ & _ & Hreleased).
  destruct (Chunked.construct _ _ _ _ _) as [t0|]; cbn [bind] in Hrun |- *;
    [|discriminate].
  exists (mkResponder (Chunked.sink t0)
            (headers d ++ [(contentLengthString, number (Z.of_nat (length data)));
                           (contentTypeString, mimeType)])
            (messages d)), t0, n, t.
  split; [reflexivity|]. split; [exact Hrun|]. split; [|auto].
  rewrite Hsink, <- !app_assoc. reflexivity.
Qed.

End ResponseFacts.

(** *** Concrete responses *)

Section ResponseRuns.

Import Responder Props Pump Devices.

Lemma streamed_file_response_witness :
  sock_open (socket (mkResponder openSocket [] [])) = true
  /\ reasons !! 200 = Some (QByteArrayLiteral "OK")
  /\ digits <> []
  /\ exists d' t0 n t,
       write_device true reasons megabyte (openFile digits) textPlain 200
         (mkResponder openSocket [] [])
       = Ok (d', Some t0)
       /\ Chunked.run true DEFAULT_BUFFERSIZE (rounds n) t0 = Ok t
       /\ Chunked.sink t
          = mkSocket true
              (sock_queue (socket (mkResponder openSocket [] []))
                 ++ statusLine 200 (QByteArrayLiteral "OK")
                 ++ headerLines
                      (headers (mkResponder openSocket [] [])
                         ++ [(contentLengthString, number (Z.of_nat (length digits)));
                             (contentTypeString, textPlain)])
                 ++ CRLF ++ digits)
       /\ Chunked.delivered (Chunked.issued t) = digits
       /\ Chunked.sourceDeleteLater t = true.
Proof.
  split; [reflexivity|]. split; [reflexivity|]. split; [discriminate|].
  apply (streamed_file_response true reasons megabyte digits textPlain 200
           (QByteArrayLiteral "OK") (mkResponder openSocket [] []));
    [reflexivity|reflexivity|discriminate].
Defined.

Lemma unknown_status_throws_witness :
  sock_open (socket (mkResponder openSocket [] [])) = true
  /\ reasons !! 404 = None
  /\ (write_bytes true reasons abcd textPlain 404 (mkResponder openSocket [] [])
      = Crash OutOfRange
      /\ write_status true reasons 404 (mkResponder openSocket [] []) = Crash OutOfRange
      /\ (readable (openFile abcd) = true ->
          write_device true reasons (block 8) (openFile abcd) textPlain 404
            (mkResponder openSocket [] [])
          = Crash OutOfRange)
      /\ (readable (openFile abcd) = false -> 404 = InternalServerError ->
          forall asked,
            write_device true reasons (block 8) (openFile abcd) textPlain asked
              (mkResponder openSocket [] [])
            = Crash OutOfRange)).
Proof.
  split; [reflexivity|]. split; [reflexivity|].
  apply (unknown_status_throws true reasons (block 8) (openFile abcd) abcd textPlain 404
           (mkResponder openSocket [] [])); reflexivity.
Defined.

Lemma transfer_iff_source_has_data_witness :
  sock_open (socket (mkResponder openSocket [] [])) = true
  /\ reasons !! 200 = Some (QByteArrayLiteral "OK")
  /\ reasons !! InternalServerError = Some (QByteArrayLiteral "Internal Server Error")
  /\ exists d' tr,
       write_device true reasons megabyte (openFile abcd) textPlain 200
         (mkResponder openSocket [] [])
       = Ok (d', tr)
       /\ (is_Some tr
           <-> readable (openFile abcd) = true /\ atEnd (opened (openFile abcd)) = false)
       /\ (forall t, tr = Some t ->
           Chunked.sink t = socket d' /\ sock_open (socket d') = true).
Proof.
  split; [reflexivity|]. split; [reflexivity|]. split; [reflexivity|].
  apply (transfer_iff_source_has_data true reasons megabyte (openFile abcd) textPlain 200
           (QByteArrayLiteral "OK") (QByteArrayLiteral "Internal Server Error")
           (mkResponder openSocket [] [])); reflexivity.
Defined.

Lemma writes_only_append_witness :
  (write_bytes false reasons abcd textPlain 200 (mkResponder closedSocket [] [])
   = Ok (mkResponder closedSocket (contentHeaders textPlain 4) [])
   \/ write_device false reasons (block 8) missingFile textPlain 200
        (mkResponder closedSocket [] [])
      = Ok (mkResponder closedSocket (contentHeaders textPlain 4) [], None))
  /\ sock_open (socket (mkResponder closedSocket (contentHeaders textPlain 4) []))
     = sock_open (socket (mkResponder closedSocket [] []))
  /\ exists tail,
       sock_queue (socket (mkResponder closedSocket (contentHeaders textPlain 4) []))
       = sock_queue (socket (mkResponder closedSocket [] [])) ++ tail
       /\ (sock_open (socket (mkResponder closedSocket [] [])) = false ->
           tail = []
           /\ (write_device false reasons (block 8) missingFile textPlain 200
                 (mkResponder closedSocket [] [])
               = Ok (mkResponder closedSocket (contentHeaders textPlain 4) [], None) ->
               @None (Chunked.IOChunkedTransfer (Src:=QFile) (Snk:=QTcpSocket)) = None)).
Proof.
  split; [left; reflexivity|].
  apply (writes_only_append false reasons (block 8) missingFile abcd textPlain 200
           (mkResponder closedSocket [] [])
           (mkResponder closedSocket (contentHeaders textPlain 4) []) None).
  left. reflexivity.
Defined.

End ResponseRuns.

(** * More on the server *)

Section DispatchFacts.

Import Server Props.

Variable QT_WEBSOCKETS_LIB : bool.
Variable webSocketSignalConnected : bool.
Variable feed : list byte -> QHttpServerRequestPrivate -> bool * QHttpServerRequestPrivate.
Variable headerHash : QByteArray -> N.
Variable handleRequest : QHttpServerRequestPrivate -> bool.

Local Abbreviation handleReadyRead :=
  (handleReadyRead QT_WEBSOCKETS_LIB webSocketSignalConnected feed headerHash handleRequest).

(** The outcomes of a call that returns, one per path through the
    function. *)
Lemma handleReadyRead_outcomes (socket s1 : QTcpSocket)
  (request r1 : QHttpServerRequestPrivate) (log : list action) :
  handleReadyRead socket request = Ok (s1, r1, log) ->
  exists ok s2 pre,
    parse feed (atParse socket request).1 (atParse socket request).2 = (ok, s2, r1)
    /\ (pre = [Parsed (state request)] \/ pre = [Cleared; Parsed Idle])
    /\ ((ok = false /\ s1 = s2 /\ log = pre ++ [DisconnectSignals])
        \/ (ok = true /\ s1 = s2 /\ log = pre
            /\ upgrade r1 = false /\ state r1 <> OnMessageComplete)
        \/ (ok = true /\ s1 = rollbackTransaction s2
            /\ log = pre ++ [DisconnectReadyRead; HandedToWebSocketServer; EmitReadyRead]
            /\ upgrade r1 = true /\ QT_WEBSOCKETS_LIB = true
            /\ webSocketSignalConnected = true
            /\ takenAsWebSocket true (headers r1 !! headerHash (QByteArrayLiteral "upgrade"))
               = true)
        \/ (ok = true /\ s1 = s2 /\ upgrade r1 = true
            /\ (exists msg arg, log = pre ++ [Warned msg arg; DisconnectFromHost])
            /\ (QT_WEBSOCKETS_LIB = true -> webSocketSignalConnected = true ->
                takenAsWebSocket true
                  (headers r1 !! headerHash (QByteArrayLiteral "upgrade")) = false))
        \/ (ok = true /\ s1 = commitTransaction s2 /\ upgrade r1 = false
            /\ state r1 = OnMessageComplete
            /\ log = pre ++ (if handleRequest r1 then [Handled true]
                             else [Handled false; MissingHandler]))).
Proof.
  unfold Server.handleReadyRead, atParse. cbn [fst snd]. intros Hres.
  set (s0 := if negb (transactionStarted socket) then startTransaction socket else socket)
    in *.
  assert (Hpre : exists r0 pre,
             (if bool_decide (state request = OnMessageComplete)
              then (clear request, [Cleared]) else (request, []))
             = (r0, pre)
             /\ r0 = (if bool_decide (state request = OnMessageComplete)
                      then clear request else request)
             /\ (pre ++ [Parsed (state r0)] = [Parsed (state request)]
                 \/ pre ++ [Parsed (state r0)] = [Cleared; Parsed Idle])).
  { destruct (bool_decide (state request = OnMessageComplete));
      eexists _, _; (split; [reflexivity|split; [reflexivity|]]); [right|left]; reflexivity. }
  destruct Hpre as (r0 & pre & Heq & Hr0 & Hpre). rewrite Heq in Hres. rewrite <- Hr0.
  destruct (parse feed s0 r0) as [[ok s2] r2].
  exists ok, s2, (pre ++ [Parsed (state r0)]).
  destruct ok; cbn [negb] in Hres.
  2:{ injection Hres as <- <- <-. split; [reflexivity|]. split; [exact Hpre|]. left. auto. }
  destruct (upgrade r2) eqn:Hup; cbn [negb andb] in Hres.
  - destruct (headers r2 !! headerHash (QByteArrayLiteral "upgrade")) as [[k v]|] eqn:Hit;
      [|discriminate].
    destruct QT_WEBSOCKETS_LIB eqn:Hlib; cbn [andb] in Hres.
    + destruct (equalsIgnoreCase v (QByteArrayLiteral "websocket")) eqn:Hws.
      * destruct webSocketSignalConnected eqn:Hsig; injection Hres as <- <- <-;
          (split; [reflexivity|split; [exact Hpre|]]).
        -- right. right. left. rewrite Hit. cbn [takenAsWebSocket andb]. auto 10.
        -- right. right. right. left. split; [reflexivity|]. split; [reflexivity|].
           split; [exact Hup|]. split; [eexists _, _; reflexivity|]. discriminate.
      * injection Hres as <- <- <-. split; [reflexivity|split; [exact Hpre|]].
        right. right. right. left. split; [reflexivity|]. split; [reflexivity|].
        split; [exact Hup|]. split; [eexists _, _; reflexivity|].
        rewrite Hit. cbn [takenAsWebSocket andb]. auto.
    + injection Hres as <- <- <-. split; [reflexivity|split; [exact Hpre|]].
      right. right. right. left. split; [reflexivity|]. split; [reflexivity|].
      split; [exact Hup|]. split; [eexists _, _; reflexivity|]. discriminate.
  - destruct (bool_decide (state r2 = OnMessageComplete)) eqn:Hdone; cbn [negb] in Hres.
    + apply bool_decide_eq_true_1 in Hdone.
      destruct (handleRequest r2) eqn:Hclaim; injection Hres as <- <- <-;
        (split; [reflexivity|split; [exact Hpre|]]);
        do 4 right; rewrite Hclaim; auto 10.
    + apply bool_decide_eq_false_1 in Hdone. injection Hres as <- <- <-.
      split; [reflexivity|split; [exact Hpre|]]. right. left. auto.
Qed.

Local Ltac by_outcome H :=
  destruct (handleReadyRead_outcomes _ _ _ _ _ H)
    as (ok & s2 & pre & Hparse & Hpre
        & [(-> & -> & ->)
          |[(-> & -> & -> & Hup & Hstate)
           |[(-> & -> & -> & Hup & Hlib & Hsig & Hws)
            |[(-> & -> & Hup & (msg & arg & ->) & Hws)
             |(-> & -> & Hup & Hstate & ->)]]]]);
  destruct Hpre as [->| ->].

(** X12.  The handler runs, once, exactly in the calls whose parse succeeds
    and leaves a complete message that is not an upgrade; the transaction
    on the socket is then committed, and [missingHandler] is emitted
    exactly when the handler returns false. *)
Theorem handler_runs_on_complete_messages (socket s1 : QTcpSocket)
  (request r1 : QHttpServerRequestPrivate) (log : list action) :
  handleReadyRead socket request = Ok (s1, r1, log) ->
  (existsb isHandled log = true
   <-> upgrade r1 = false /\ state r1 = OnMessageComplete /\ ~ In DisconnectSignals log)
  /\ (length (List.filter isHandled log) <= 1)%nat
  /\ (forall claimed, In (Handled claimed) log ->
      claimed = handleRequest r1
      /\ transactionStarted s1 = false /\ consumed s1 = []
      /\ (In MissingHandler log <-> claimed = false))
  /\ (In MissingHandler log -> In (Handled false) log).
Proof.
  intros Hres. by_outcome Hres; try destruct (handleRequest r1) eqn:Hclaim;
    cbn; rewrite ?Hup; (split; [|split; [lia|split]]);
    try (intros claimed); intuition (try discriminate; try congruence).
Qed.

(** X13.  The socket is handed to the WebSocket server exactly when the
    library is built with WebSocket support, a slot is connected to
    [newWebSocketConnection], the parse succeeds and flags an upgrade whose
    header holds "websocket" in any case.  The transaction is then rolled
    back, so that the bytes read since it was started are unread again,
    and the call neither dispatches nor disconnects from the host.  Every
    other upgrade that returns is answered by disconnecting from the
    host. *)
Theorem websocket_handover (socket s1 : QTcpSocket)
  (request r1 : QHttpServerRequestPrivate) (log : list action) :
  handleReadyRead socket request = Ok (s1, r1, log) ->
  (In HandedToWebSocketServer log
   <-> QT_WEBSOCKETS_LIB = true /\ webSocketSignalConnected = true
       /\ upgrade r1 = true /\ ~ In DisconnectSignals log
       /\ takenAsWebSocket true (headers r1 !! headerHash (QByteArrayLiteral "upgrade"))
          = true)
  /\ (In HandedToWebSocketServer log ->
      ~ In DisconnectFromHost log /\ existsb isHandled log = false
      /\ transactionStarted s1 = false
      /\ unread s1
         = (if transactionStarted socket then consumed socket else []) ++ unread socket)
  /\ (upgrade r1 = true -> ~ In DisconnectSignals log ->
      ~ In HandedToWebSocketServer log -> In DisconnectFromHost log).
Proof.
  intros Hres.
  assert (Hread : forall ok s2,
            parse feed (atParse socket request).1 (atParse socket request).2 = (ok, s2, r1) ->
            unread (rollbackTransaction s2)
            = (if transactionStarted socket then consumed socket else []) ++ unread socket).
  { intros ok' s' Hparse'. unfold parse, readAll, atParse in Hparse'. cbn [fst snd] in Hparse'.
    destruct (feed _ _) as [ok'' r'']. injection Hparse' as _ <- _.
    destruct (transactionStarted socket) eqn:Hts; cbn; rewrite ?Hts, app_nil_r; reflexivity. }
  by_outcome Hres; try destruct (handleRequest r1) eqn:Hclaim;
    try (specialize (Hread _ _ Hparse));
    cbn -[takenAsWebSocket]; rewrite ?Hup; (split; [|split]);
    intuition (try discriminate; try congruence).
Qed.

End DispatchFacts.

(** *** Concrete calls of [handleReadyRead] *)

Section DispatchRuns.

Import Server Props Upgrade.

Lemma handler_runs_on_complete_messages_witness :
  handleReadyRead true false toyFeed lengthHash (fun _ => false)
    (arrive (QByteArrayLiteral "G") freshSocket) freshRequest
  = Ok (mkSocket false [] [],
        mkRequest OnMessageComplete false (QByteArrayLiteral "/") ∅ [],
        [Parsed Idle; Handled false; MissingHandler])
  /\ (existsb isHandled [Parsed Idle; Handled false; MissingHandler] = true
      <-> upgrade (mkRequest OnMessageComplete false (QByteArrayLiteral "/") ∅ []) = false
          /\ state (mkRequest OnMessageComplete false (QByteArrayLiteral "/") ∅ [])
             = OnMessageComplete
          /\ ~ In DisconnectSignals [Parsed Idle; Handled false; MissingHandler])
  /\ (length (List.filter isHandled [Parsed Idle; Handled false; MissingHandler]) <= 1)%nat
  /\ (forall claimed, In (Handled claimed) [Parsed Idle; Handled false; MissingHandler] ->
      claimed = (fun _ : QHttpServerRequestPrivate => false)
                  (mkRequest OnMessageComplete false (QByteArrayLiteral "/") ∅ [])
      /\ transactionStarted (mkSocket false [] []) = false
      /\ consumed (mkSocket false [] []) = []
      /\ (In MissingHandler [Parsed Idle; Handled false; MissingHandler]
          <-> claimed = false))
  /\ (In MissingHandler [Parsed Idle; Handled false; MissingHandler] ->
      In (Handled false) [Parsed Idle; Handled false; MissingHandler]).
Proof.
  split; [vm_compute; reflexivity|].
  apply (handler_runs_on_complete_messages true false toyFeed lengthHash (fun _ => false)
           (arrive (QByteArrayLiteral "G") freshSocket) (mkSocket false [] [])
           freshRequest (mkRequest OnMessageComplete false (QByteArrayLiteral "/") ∅ [])).
  vm_compute. reflexivity.
Defined.

Lemma websocket_handover_witness :
  handleReadyRead true true upgradeFeed lengthHash (fun _ => true) midRequest freshRequest
  = Ok (mkSocket false
          (QByteArrayLiteral "GET /chat HTTP/1.1 " ++ QByteArrayLiteral "Upgrade: WebSocket")
          [],
        mkRequest OnMessageComplete true (QByteArrayLiteral "/chat") webSocketHeaders [],
        [Parsed Idle; DisconnectReadyRead; HandedToWebSocketServer; EmitReadyRead])
  /\ (In HandedToWebSocketServer
        [Parsed Idle; DisconnectReadyRead; HandedToWebSocketServer; EmitReadyRead]
      <-> true = true /\ true = true
          /\ upgrade (mkRequest OnMessageComplete true (QByteArrayLiteral "/chat")
                        webSocketHeaders []) = true
          /\ ~ In DisconnectSignals
                 [Parsed Idle; DisconnectReadyRead; HandedToWebSocketServer; EmitReadyRead]
          /\ takenAsWebSocket true
               (headers (mkRequest OnMessageComplete true (QByteArrayLiteral "/chat")
                           webSocketHeaders [])
                  !! lengthHash (QByteArrayLiteral "upgrade")) = true)
  /\ (In HandedToWebSocketServer
        [Parsed Idle; DisconnectReadyRead; HandedToWebSocketServer; EmitReadyRead] ->
      ~ In DisconnectFromHost
          [Parsed Idle; DisconnectReadyRead; HandedToWebSocketServer; EmitReadyRead]
      /\ existsb isHandled
           [Parsed Idle; DisconnectReadyRead; HandedToWebSocketServer; EmitReadyRead]
         = false
      /\ transactionStarted
           (mkSocket false
              (QByteArrayLiteral "GET /chat HTTP/1.1 "
                 ++ QByteArrayLiteral "Upgrade: WebSocket") []) = false
      /\ unread (mkSocket false
                   (QByteArrayLiteral "GET /chat HTTP/1.1 "
                      ++ QByteArrayLiteral "Upgrade: WebSocket") [])
         = (if transactionStarted midRequest then consumed midRequest else [])
             ++ unread midRequest)
  /\ (upgrade (mkRequest OnMessageComplete true (QByteArrayLiteral "/chat")
                 webSocketHeaders []) = true ->
      ~ In DisconnectSignals
          [Parsed Idle; DisconnectReadyRead; HandedToWebSocketServer; EmitReadyRead] ->
      ~ In HandedToWebSocketServer
          [Parsed Idle; DisconnectReadyRead; HandedToWebSocketServer; EmitReadyRead] ->
      In DisconnectFromHost
        [Parsed Idle; DisconnectReadyRead; HandedToWebSocketServer; EmitReadyRead]).
Proof.
  split; [vm_compute; reflexivity|].
  apply (websocket_handover true true upgradeFeed lengthHash (fun _ => true)
           midRequest
           (mkSocket false
              (QByteArrayLiteral "GET /chat HTTP/1.1 "
                 ++ QByteArrayLiteral "Upgrade: WebSocket") [])
           freshRequest
           (mkRequest OnMessageComplete true (QByteArrayLiteral "/chat") webSocketHeaders [])
           [Parsed Idle; DisconnectReadyRead; HandedToWebSocketServer; EmitReadyRead]).
  vm_compute. reflexivity.
Defined.

End DispatchRuns.

(** * The listening side *)

Section ListenerFacts.

Import Listener.

Variable sys : QHostAddress -> Z -> option Z.

Lemma fresh_not_alive (st : QAbstractHttpServer) :
  objects st !! fresh (dom (objects st)) = None.
Proof. apply not_elem_of_dom, is_fresh. Qed.

Lemma fresh_not_child (st : QAbstractHttpServer) :
  consistent st ->
  (fresh (dom (objects st)) ∉ children st)
  /\ (fresh (dom (objects st)) ∉ connections st).
Proof.
  intros [_ [_ [Halive Hchild]]].
  assert (Hc : fresh (dom (objects st)) ∉ children st).
  { intros Hin. destruct (Halive _ Hin) as [tcp Htcp].
    rewrite fresh_not_alive in Htcp. discriminate. }
  split; [exact Hc|]. intros Hin. apply Hc, Hchild, Hin.
Qed.

Lemma filter_out_absent (p : positive) (l : list positive) :
  p ∉ l -> List.filter (fun q => negb (Pos.eqb q p)) l = l.
Proof.
  induction l as [|a l IH]; [reflexivity|]. intros Hnot.
  apply not_elem_of_cons in Hnot as [Hne Hnot]. cbn [List.filter].
  destruct (Pos.eqb_spec a p) as [->|_]; [contradiction|]. cbn [negb].
  now rewrite IH.
Qed.

Lemma filter_out_last (p : positive) (l : list positive) :
  p ∉ l -> List.filter (fun q => negb (Pos.eqb q p)) (l ++ [p]) = l.
Proof.
  intros Hnot. rewrite List.filter_app, filter_out_absent by exact Hnot.
  cbn [List.filter]. rewrite Pos.eqb_refl. cbn [negb]. apply app_nil_r.
Qed.

Lemma NoDup_snoc (p : positive) (l : list positive) :
  NoDup l -> p ∉ l -> NoDup (l ++ [p]).
Proof.
  intros Hl Hp. apply NoDup_app; [exact Hl|constructor; [intros []|constructor]|].
  intros q Hq [<-|[]]. apply Hp, list_elem_of_In, Hq.
Qed.

Lemma NoDup_snoc_unless (p : positive) (l : list positive) :
  NoDup l -> NoDup (if bool_decide (p ∈ l) then l else l ++ [p]).
Proof.
  intros Hl. destruct (bool_decide (p ∈ l)) eqn:Hin; [exact Hl|].
  apply bool_decide_eq_false_1 in Hin. now apply NoDup_snoc.
Qed.

Lemma elem_of_snoc_unless (p q : positive) (l : list positive) :
  q ∈ (if bool_decide (p ∈ l) then l else l ++ [p]) <-> q ∈ l \/ q = p.
Proof.
  destruct (bool_decide (p ∈ l)) eqn:Hin.
  - apply bool_decide_eq_true_1 in Hin. split; [auto|]. intros [Hq| ->]; assumption.
  - rewrite elem_of_app, list_elem_of_singleton. reflexivity.
Qed.

(** [bind] on a server that is alive: it becomes a child unless it is one,
    is connected unless it is, and a warning is logged if it does not
    listen. *)
Lemma bind_alive (p : positive) (tcp : QTcpServer) (st : QAbstractHttpServer) :
  objects st !! p = Some tcp ->
  exists st',
    bind sys (Some p) st = Ok st'
    /\ objects st' = objects st
    /\ children st' = (if bool_decide (p ∈ children st)
                       then children st else children st ++ [p])
    /\ connections st' = (if bool_decide (p ∈ connections st)
                          then connections st else connections st ++ [p])
    /\ messages st'
       = messages st
         ++ (if isListening tcp then []
             else [(QtWarningMsg, "The TCP server %p is not listening."%string)]).
Proof.
  intros Halive. unfold bind. rewrite Halive.
  eexists. split; [reflexivity|].
  unfold connectUnique, setParent, say.
  destruct (isListening tcp); cbn [negb objects children connections messages];
    destruct (bool_decide (p ∈ children st));
    cbn [objects children connections messages];
    destruct (bool_decide (p ∈ connections st));
    cbn [objects children connections messages];
    rewrite ?app_nil_r; auto.
Qed.

Lemma bind_alive_consistent (p : positive) (tcp : QTcpServer)
  (st st' : QAbstractHttpServer) :
  consistent st -> objects st !! p = Some tcp -> bind sys (Some p) st = Ok st' ->
  consistent st' /\ p ∈ children st' /\ p ∈ connections st'.
Proof.
  intros (Hc & Hn & Halive & Hchild) Hp Hbind.
  destruct (bind_alive p tcp st Hp) as (st'' & Heq & Ho & Hch & Hco & _).
  rewrite Heq in Hbind. injection Hbind as ->.
  unfold consistent. rewrite Ho, Hch, Hco.
  split; [|split; apply elem_of_snoc_unless; auto].
  split; [now apply NoDup_snoc_unless|]. split; [now apply NoDup_snoc_unless|].
  split.
  - intros q Hq. apply elem_of_snoc_unless in Hq as [Hq| ->]; [now apply Halive|].
    now exists tcp.
  - intros q Hq. apply elem_of_snoc_unless.
    apply elem_of_snoc_unless in Hq as [Hq| ->]; auto.
Qed.

(** X14.  [listen] returns, and answers -1 exactly when the TCP server could
    not listen; the server it created is then deleted and the HTTP server is
    as it was.  Otherwise the answer is the port that was bound, the new
    server is the last of [servers()], it listens, and its [newConnection]
    is connected to [handleNewConnections]. *)
Theorem listen_answers_minus_one_on_failure (address : QHostAddress) (port : Z)
  (st : QAbstractHttpServer) :
  consistent st ->
  exists r st',
    listen sys address port st = Ok (r, st')
    /\ consistent st'
    /\ (r = -1 <-> sys address (quint16 port) = None)
    /\ match sys address (quint16 port) with
       | None => st' = st
       | Some bound =>
           r = quint16 bound
           /\ exists p,
                (p ∉ servers st)
                /\ servers st' = servers st ++ [p]
                /\ connections st' = connections st ++ [p]
                /\ objects st' = <[p := mkServer true r]> (objects st)
                /\ messages st' = messages st
       end.
Proof.
  intros Hst. destruct (fresh_not_child st Hst) as [Hchild Hconn].
  pose proof (fresh_not_alive st) as Hfresh.
  unfold listen, newServer, tcpListen.
  destruct (sys address (quint16 port)) as [bound|] eqn:Hsys.
  - set (p := fresh (dom (objects st))) in *.
    set (st1 := mkHttpServer _ _ _ _).
    assert (Hp : objects st1 !! p = Some (mkServer true (quint16 bound))).
    { subst st1. cbn [objects]. apply lookup_insert_eq. }
    destruct (bind_alive p _ st1 Hp) as (st' & Hbind & Ho & Hch & Hco & Hm).
    rewrite Hbind, Ho, Hp. cbn [serverPort].
    assert (Hin : bool_decide (p ∈ children st1) = true).
    { apply bool_decide_eq_true_2. subst st1. cbn [children].
      apply elem_of_app. right. now apply list_elem_of_singleton. }
    assert (Hout : bool_decide (p ∈ connections st1) = false).
    { apply bool_decide_eq_false_2. exact Hconn. }
    rewrite Hin in Hch. rewrite Hout in Hco.
    subst st1. cbn [objects children connections messages isListening] in *.
    rewrite insert_insert_eq in Ho. rewrite app_nil_r in Hm.
    exists (quint16 bound), st'. split; [reflexivity|].
    destruct Hst as (Hc & Hn & Halive & Hsub).
    assert (Hrange : 0 <= quint16 bound < 2 ^ 16) by (apply Z.mod_pos_bound; lia).
    split.
    { unfold consistent. rewrite Ho, Hch, Hco.
      split; [now apply NoDup_snoc|]. split; [now apply NoDup_snoc|]. split.
      - intros q Hq. apply elem_of_app in Hq as [Hq|Hq].
        + destruct (decide (p = q)) as [<-|Hne]; [contradiction|].
          rewrite lookup_insert_ne by exact Hne. now apply Halive.
        + apply list_elem_of_singleton in Hq as ->. rewrite lookup_insert_eq. eauto.
      - intros q Hq. apply elem_of_app. apply elem_of_app in Hq as [Hq|Hq]; auto. }
    split; [split; [lia|discriminate]|].
    split; [reflexivity|]. exists p. unfold servers. auto 10.
  - exists (-1), st. split.
    { f_equal. f_equal. unfold deleteServer. cbn [objects children connections messages].
      rewrite delete_insert_id by exact Hfresh.
      rewrite filter_out_last by exact Hchild.
      rewrite filter_out_absent by exact Hconn. now destruct st. }
    split; [exact Hst|]. split; [tauto|reflexivity].
Qed.

(** X15.  [bind] always binds: given the null pointer or a server that is
    alive, it returns with the server among [servers()] and connected to
    [handleNewConnections] exactly once, also when that server does not
    listen, which costs one message; no server that was bound before is
    lost, and the object tree stays consistent. *)
Theorem bind_always_binds (server : option positive) (st : QAbstractHttpServer) :
  consistent st -> (forall p, server = Some p -> is_Some (objects st !! p)) ->
  exists st' p tcp,
    bind sys server st = Ok st'
    /\ consistent st'
    /\ (forall q, server = Some q -> p = q)
    /\ objects st' !! p = Some tcp
    /\ p ∈ servers st'
    /\ length (List.filter (Pos.eqb p) (connections st')) = 1%nat
    /\ (forall q, q ∈ servers st -> q ∈ servers st')
    /\ (forall q, q ∈ connections st -> q ∈ connections st')
    /\ length (messages st')
       = (length (messages st) + (if isListening tcp then 0 else 1))%nat.
Proof.
  intros Hst Hptr.
  assert (Hcount : forall st' p, NoDup (connections st') -> p ∈ connections st' ->
            length (List.filter (Pos.eqb p) (connections st')) = 1%nat).
  { intros st' p. generalize (connections st'). intros l.
    induction l as [|a l IH]; intros Hn Hin; [now apply elem_of_nil in Hin|].
    inversion Hn as [|a' l' Ha Hn']; subst a' l'.
    rewrite <- list_elem_of_In in Ha. cbn [List.filter].
    destruct (Pos.eqb_spec p a) as [->|Hne].
    - cbn [length]. f_equal.
      assert (Hnone : forall l', a ∉ l' -> List.filter (Pos.eqb a) l' = []).
      { induction l' as [|b l' IH']; [reflexivity|]. intros Hb.
        apply not_elem_of_cons in Hb as [Hab Hb]. cbn [List.filter].
        destruct (Pos.eqb_spec a b); [contradiction|]. now apply IH'. }
      now rewrite Hnone.
    - apply elem_of_cons in Hin as [Hin|Hin]; [contradiction|]. now apply IH. }
  destruct server as [p|].
  - destruct (Hptr p eq_refl) as [tcp Htcp].
    destruct (bind_alive p tcp st Htcp) as (st' & Hbind & Ho & Hch & Hco & Hm).
    destruct (bind_alive_consistent p tcp st st' Hst Htcp Hbind) as (Hst' & Hchild & Hconn).
    exists st', p, tcp. split; [exact Hbind|]. split; [exact Hst'|].
    split; [now intros q [= ->]|]. split; [now rewrite Ho|]. split; [exact Hchild|].
    split; [apply Hcount; [apply Hst'|exact Hconn]|].
    unfold servers. rewrite Hch, Hco, Hm, length_app.
    split; [intros q Hq; apply elem_of_snoc_unless; auto|].
    split; [intros q Hq; apply elem_of_snoc_unless; auto|].
    now destruct (isListening tcp).
  - destruct (fresh_not_child st Hst) as [Hchild Hconn].
    pose proof (fresh_not_alive st) as Hfresh.
    unfold bind, newServer, tcpListen.
    set (p := fresh (dom (objects st))) in *.
    destruct Hst as (Hc & Hn & Halive & Hsub).
    assert (Hout : bool_decide (p ∈ connections st) = false)
      by now apply bool_decide_eq_false_2.
    pose proof (NoDup_snoc p) as Hsnoc.
    destruct (sys Any (quint16 0)) as [bound|]; cbn [negb];
      unfold connectUnique, say; cbn [objects children connections messages];
      rewrite Hout.
    + eexists _, p, (mkServer true (quint16 bound)). split; [reflexivity|].
      cbn [objects children connections messages servers isListening].
      split.
      { unfold consistent. cbn [objects children connections messages].
        split; [now apply Hsnoc|]. split; [now apply Hsnoc|]. split.
        - intros q Hq. apply elem_of_app in Hq as [Hq|Hq].
          + destruct (decide (p = q)) as [<-|Hne]; [contradiction|].
            rewrite !lookup_insert_ne by exact Hne. now apply Halive.
          + apply list_elem_of_singleton in Hq as ->. rewrite lookup_insert_eq. eauto.
        - intros q Hq. apply elem_of_app. apply elem_of_app in Hq as [Hq|Hq]; auto. }
      split; [discriminate|]. split; [apply lookup_insert_eq|].
      split; [apply elem_of_app; right; now apply list_elem_of_singleton|].
      split.
      { apply (Hcount (mkHttpServer ∅ [] (connections st ++ [p]) []));
          cbn [connections]; [now apply Hsnoc|].
        apply elem_of_app; right; now apply list_elem_of_singleton. }
      split; [intros q Hq; apply elem_of_app; auto|].
      split; [intros q Hq; apply elem_of_app; auto|lia].
    + eexists _, p, (mkServer false 0). split; [reflexivity|].
      cbn [objects children connections messages servers isListening].
      split.
      { unfold consistent. cbn [objects children connections messages].
        split; [now apply Hsnoc|]. split; [now apply Hsnoc|]. split.
        - intros q Hq. apply elem_of_app in Hq as [Hq|Hq].
          + destruct (decide (p = q)) as [<-|Hne]; [contradiction|].
            rewrite !lookup_insert_ne by exact Hne. now apply Halive.
          + apply list_elem_of_singleton in Hq as ->. rewrite lookup_insert_eq. eauto.
        - intros q Hq. apply elem_of_app. apply elem_of_app in Hq as [Hq|Hq]; auto. }
      split; [discriminate|]. split; [apply lookup_insert_eq|].
      split; [apply elem_of_app; right; now apply list_elem_of_singleton|].
      split.
      { apply (Hcount (mkHttpServer ∅ [] (connections st ++ [p]) []));
          cbn [connections]; [now apply Hsnoc|].
        apply elem_of_app; right; now apply list_elem_of_singleton. }
      split; [intros q Hq; apply elem_of_app; auto|].
      split; [intros q Hq; apply elem_of_app; auto|].
      rewrite length_app. cbn [length]. lia.
Qed.

(** X16.  Binding a server a second time changes neither the object tree
    nor the connections: [Qt::UniqueConnection] keeps [handleNewConnections]
    from being connected twice.  Only the warning about a server that does
    not listen is logged again. *)
Theorem bind_again_changes_nothing (p : positive) (st st1 : QAbstractHttpServer) :
  bind sys (Some p) st = Ok st1 ->
  exists st2 tail,
    bind sys (Some p) st1 = Ok st2
    /\ objects st2 = objects st1
    /\ servers st2 = servers st1
    /\ connections st2 = connections st1
    /\ messages st1 = messages st ++ tail
    /\ messages st2 = messages st1 ++ tail.
Proof.
  intros Hbind.
  destruct (objects st !! p) as [tcp|] eqn:Htcp;
    [|unfold bind in Hbind; rewrite Htcp in Hbind; discriminate].
  destruct (bind_alive p tcp st Htcp) as (st' & Heq & Ho & Hch & Hco & Hm).
  rewrite Heq in Hbind. injection Hbind as ->.
  assert (Htcp1 : objects st1 !! p = Some tcp) by now rewrite Ho.
  destruct (bind_alive p tcp st1 Htcp1) as (st2 & Heq2 & Ho2 & Hch2 & Hco2 & Hm2).
  assert (Hin : bool_decide (p ∈ children st1) = true).
  { apply bool_decide_eq_true_2. rewrite Hch. apply elem_of_snoc_unless. auto. }
  assert (Hin' : bool_decide (p ∈ connections st1) = true).
  { apply bool_decide_eq_true_2. rewrite Hco. apply elem_of_snoc_unless. auto. }
  rewrite Hin in Hch2. rewrite Hin' in Hco2.
  exists st2, (if isListening tcp then []
               else [(QtWarningMsg, "The TCP server %p is not listening."%string)]).
  unfold servers. auto 10.
Qed.

End ListenerFacts.

(** *** Concrete calls of [listen] and [bind] *)

Section ListenerRuns.

Import Listener.

Lemma withOwnServer_consistent : consistent withOwnServer.
Proof.
  unfold consistent, withOwnServer. cbn [children connections objects].
  split; [constructor|]. split; [constructor|].
  split; intros p Hp; now apply elem_of_nil in Hp.
Qed.

Lemma listen_answers_minus_one_on_failure_witness :
  consistent withOwnServer
  /\ exists r st',
       listen only8080 Any 80 withOwnServer = Ok (r, st')
       /\ consistent st'
       /\ (r = -1 <-> only8080 Any (quint16 80) = None)
       /\ match only8080 Any (quint16 80) with
          | None => st' = withOwnServer
          | Some bound =>
              r = quint16 bound
              /\ exists p,
                   (p ∉ servers withOwnServer)
                   /\ servers st' = servers withOwnServer ++ [p]
                   /\ connections st' = connections withOwnServer ++ [p]
                   /\ objects st' = <[p := mkServer true r]> (objects withOwnServer)
                   /\ messages st' = messages withOwnServer
          end.
Proof.
  split; [exact withOwnServer_consistent|].
  apply (listen_answers_minus_one_on_failure only8080 Any 80 withOwnServer).
  exact withOwnServer_consistent.
Defined.

Lemma bind_always_binds_witness :
  consistent withOwnServer
  /\ (forall p, Some 1%positive = Some p -> is_Some (objects withOwnServer !! p))
  /\ exists st' p tcp,
       bind anyPort (Some 1%positive) withOwnServer = Ok st'
       /\ consistent st'
       /\ (forall q, Some 1%positive = Some q -> p = q)
       /\ objects st' !! p = Some tcp
       /\ p ∈ servers st'
       /\ length (List.filter (Pos.eqb p) (connections st')) = 1%nat
       /\ (forall q, q ∈ servers withOwnServer -> q ∈ servers st')
       /\ (forall q, q ∈ connections withOwnServer -> q ∈ connections st')
       /\ length (messages st')
          = (length (messages withOwnServer) + (if isListening tcp then 0 else 1))%nat.
Proof.
  assert (Halive : forall p, Some 1%positive = Some p ->
                     is_Some (objects withOwnServer !! p)).
  { intros p [= <-]. exists (mkServer false 0). reflexivity. }
  split; [exact withOwnServer_consistent|]. split; [exact Halive|].
  apply (bind_always_binds anyPort (Some 1%positive) withOwnServer
           withOwnServer_consistent Halive).
Defined.

Lemma bind_again_changes_nothing_witness :
  bind anyPort (Some 1%positive) withOwnServer
  = Ok (mkHttpServer (objects withOwnServer) [1%positive] [1%positive]
          [(QtWarningMsg, "The TCP server %p is not listening."%string)])
  /\ exists st2 tail,
       bind anyPort (Some 1%positive)
         (mkHttpServer (objects withOwnServer) [1%positive] [1%positive]
            [(QtWarningMsg, "The TCP server %p is not listening."%string)])
       = Ok st2
       /\ objects st2 = objects withOwnServer
       /\ servers st2 = [1%positive]
       /\ connections st2 = [1%positive]
       /\ [(QtWarningMsg, "The TCP server %p is not listening."%string)]
          = messages withOwnServer ++ tail
       /\ messages st2
          = [(QtWarningMsg, "The TCP server %p is not listening."%string)] ++ tail.
Proof.
  split; [reflexivity|].
  apply (bind_again_changes_nothing anyPort 1%positive withOwnServer
           (mkHttpServer (objects withOwnServer) [1%positive] [1%positive]
              [(QtWarningMsg, "The TCP server %p is not listening."%string)])).
  reflexivity.
Defined.

End ListenerRuns.
